(** * ClawCloud auto-login: a shallow embedding of [scripts/auto_login.py]

    The script drives a browser through a GitHub OAuth login, asks an
    operator for help over Telegram, and stores the renewed session
    cookie.  Everything it does is an interaction with something outside
    the process (the page, the clock, the Telegram and GitHub APIs), so
    the embedding is a state-and-exception monad over a [World] whose
    outside answers come from an oracle [Env]: the n-th interaction of a
    run receives the n-th [Answer].  Quantifying over every [Env] covers
    every behaviour of the page, the network and the operator.

    Conventions.
    - The strings of the script's own world (environment variables,
      URLs, cookie values) are [string]s whose characters are code points
      below 256.
    - The text of a Telegram message is whatever the operator, or anyone
      else, typed: it is a [Text], the list of its Unicode code points,
      and the regular expression and [strip] work on it as Python's do,
      with the Unicode classes of whitespace and decimal digits.
    - Time is counted in whole milliseconds ([time.time()] is [clock]).
    - Log lines, Telegram messages, captions and screenshot names are
      constructors, one per format string of the script, carrying the
      values the format string interpolates. *)

From Stdlib Require Import String Ascii NArith ZArith List Bool Lia DecimalString.
Import ListNotations.
Local Open Scope string_scope.
Local Open Scope Z_scope.

(** ** Python string operations used by the script *)

(** A Python [str] as the list of its code points. *)
Definition Text : Type := list N.

Module Str.

(** [needle in hay] *)
Fixpoint contains (needle hay : string) : bool :=
  if String.prefix needle hay then true
  else match hay with
       | EmptyString => false
       | String _ rest => contains needle rest
       end.

Definition code (c : ascii) : nat := nat_of_ascii c.

Definition between (lo hi n : nat) : bool := (Nat.leb lo n && Nat.leb n hi)%bool.

(** the code points of a [string] *)
Fixpoint of_string (s : string) : Text :=
  match s with
  | EmptyString => []
  | String c rest => N.of_nat (code c) :: of_string rest
  end.

Definition within (lo hi c : N) : bool := (N.leb lo c && N.leb c hi)%bool.

(** [str.isspace], the class [\s] of a [str] pattern, and the characters
    that [str.strip()] removes: the Unicode whitespace characters
    (tab to carriage return, the four separators U+001C to U+001F, space,
    U+0085, U+00A0, U+1680, U+2000 to U+200A, U+2028, U+2029, U+202F,
    U+205F, U+3000). *)
Definition is_space (c : N) : bool :=
  (within 9 13 c || within 28 32 c || N.eqb c 133 || N.eqb c 160
   || N.eqb c 5760 || within 8192 8202 c || N.eqb c 8232 || N.eqb c 8233
   || N.eqb c 8239 || N.eqb c 8287 || N.eqb c 12288)%bool.

(** The digit zero of each decimal digit system of Unicode 14.0 (general
    category Nd); the nine code points after each are its digits one to
    nine.  The first is ASCII, then Arabic-Indic, Extended Arabic-Indic,
    NKo, Devanagari, ..., Fullwidth (65296), ..., the five mathematical
    sets (120782 to 120831), ..., Segmented digits (130032). *)
Definition decimal_zeros : list N :=
  [ 48; 1632; 1776; 1984; 2406; 2534; 2662; 2790; 2918; 3046; 3174; 3302;
    3430; 3558; 3664; 3792; 3872; 4160; 4240; 6112; 6160; 6470; 6608; 6784;
    6800; 6992; 7088; 7232; 7248; 42528; 43216; 43264; 43472; 43504; 43600;
    44016; 65296; 66720; 68912; 69734; 69872; 69942; 70096; 70384; 70736;
    70864; 71248; 71360; 71472; 71904; 72016; 72784; 73040; 73120; 92768;
    92864; 93008; 120782; 120792; 120802; 120812; 120822; 123200; 123632;
    125264; 130032 ]%N.

(** the class [\d] of a [str] pattern: the Unicode decimal digits *)
Definition is_digit (c : N) : bool :=
  existsb (fun zero => within zero (zero + 9) c) decimal_zeros.

(** [str.lower] on code points below 256 *)
Definition lower_char (c : ascii) : ascii :=
  if (between 65 90 (code c) || between 192 214 (code c) || between 216 222 (code c))%bool
  then ascii_of_nat (code c + 32) else c.

Fixpoint lower (s : string) : string :=
  match s with
  | EmptyString => EmptyString
  | String c rest => String (lower_char c) (lower rest)
  end.

(** longest prefix of [s] whose characters satisfy [p], and the rest *)
Fixpoint span (p : N -> bool) (s : Text) : Text * Text :=
  match s with
  | [] => ([], [])
  | c :: rest =>
      if p c then let (h, t) := span p rest in (c :: h, t)
      else ([], s)
  end.

(** what is left of [s] after the prefix [p], when [s] starts with [p] *)
Fixpoint after (p s : Text) : option Text :=
  match p, s with
  | [], _ => Some s
  | _ :: _, [] => None
  | a :: p', b :: s' => if N.eqb a b then after p' s' else None
  end.

Fixpoint lstrip (s : Text) : Text :=
  match s with
  | [] => []
  | c :: rest => if is_space c then lstrip rest else s
  end.

Definition rstrip (s : Text) : Text := rev (lstrip (rev s)).

(** [str.strip()] *)
Definition strip (s : Text) : Text := rstrip (lstrip s).

Fixpoint drop (n : nat) (s : string) : string :=
  match n, s with
  | O, _ => s
  | S k, EmptyString => EmptyString
  | S k, String _ rest => drop k rest
  end.

(** [s[:n]] and [s[-n:]] for a positive literal [n] *)
Definition first_chars (n : nat) (s : string) : string := substring 0 n s.
Definition last_chars (n : nat) (s : string) : string :=
  drop (String.length s - n) s.

(** truthiness of a [str] *)
Definition nonempty (s : string) : bool :=
  match s with EmptyString => false | _ => true end.

(** truthiness of a value that is [None] or a [str] *)
Definition truthy (o : option string) : bool :=
  match o with Some s => nonempty s | None => false end.

Definition nonempty_text (s : Text) : bool :=
  match s with [] => false | _ :: _ => true end.

Definition truthy_text (o : option Text) : bool :=
  match o with Some s => nonempty_text s | None => false end.

(** [str(n)] for an [int] *)
Definition of_Z (z : Z) : string := NilZero.string_of_int (Z.to_int z).

End Str.

(** The end of the text as [$] sees it: the end, or one final line feed. *)
Definition at_end (tail : Text) : bool :=
  match tail with
  | [] => true
  | [c] => N.eqb c 10
  | _ => false
  end.

(** The compiled pattern of [Telegram.wait_code],
    [^/code\s+(\d{6,8})$], applied with [pattern.match] to a [str]: the
    literal [/code], a non-empty run of whitespace, six to eight decimal
    digits, then the end of the text ([$] also accepts one final line
    feed).  The pattern is a [str] pattern without flags, so [\s] and
    [\d] are the Unicode classes.  Whitespace and digits are disjoint
    classes, so the greedy runs are the only way to match; the result is
    group 1. *)
Definition match_code (text : Text) : option Text :=
  match Str.after (Str.of_string "/code") text with
  | Some rest =>
      let (ws, rest') := Str.span Str.is_space rest in
      let (ds, tail) := Str.span Str.is_digit rest' in
      if (Str.nonempty_text ws
          && Nat.leb 6 (length ds) && Nat.leb (length ds) 8
          && at_end tail)%bool
      then Some ds else None
  | None => None
  end.

Example match_code_totp :
  match_code (Str.of_string "/code 123456") = Some (Str.of_string "123456").
Proof. reflexivity. Qed.

Example match_code_short : match_code (Str.of_string "/code 12345") = None.
Proof. reflexivity. Qed.

Example match_code_long : match_code (Str.of_string "/code  123456789") = None.
Proof. reflexivity. Qed.

Example match_code_glued : match_code (Str.of_string "/code123456") = None.
Proof. reflexivity. Qed.

(** Arabic-Indic digits after an ideographic space (U+3000). *)
Example match_code_arabic_indic :
  match_code
    (Str.of_string "/code" ++ [12288; 1633; 1634; 1635; 1636; 1637; 1638]%N)%list
  = Some [1633; 1634; 1635; 1636; 1637; 1638]%N.
Proof. reflexivity. Qed.

(** ** Data *)

(** Module constants of the script. *)
Definition CLAW_CLOUD_URL : string := "https://ap-northeast-1.run.claw.cloud".
Definition SIGNIN_URL : string := CLAW_CLOUD_URL ++ "/signin".
Definition DEVICE_VERIFY_WAIT : Z := 30.
Definition TWO_FACTOR_WAIT : Z := 120.

(** The environment variables read by the three constructors
    ([os.environ.get]); [gh_session] is already stripped. *)
Record Config := {
  username : option string;      (* GH_USERNAME *)
  password : option string;      (* GH_PASSWORD *)
  gh_session : string;           (* GH_SESSION, default '' *)
  tg_token : option string;      (* TG_BOT_TOKEN *)
  tg_chat_id : option string;    (* TG_CHAT_ID *)
  repo_token : option string;    (* REPO_TOKEN *)
  repo : option string           (* GITHUB_REPOSITORY *)
}.

(** Playwright selectors.  The script writes them as strings with double
    quotes inside; here each shape is a constructor. *)
Inductive Selector :=
| Css (s : string)                       (* button.primary, input#otp, button, a, .flash-error *)
| HasText (tag text : string)            (* tag:has-text(text) *)
| AttrEq (tag attr value : string)       (* tag[attr=value] *)
| AttrSub (tag attr value : string)      (* tag[attr*=value] *)
| Either (a b : Selector).               (* a, b *)

(** An element handle: [page.locator(s).first], or the i-th element of
    [page.locator(s).all()] / [locator.nth(i)]. *)
Inductive Target :=
| First (s : Selector)
| Nth (s : Selector) (i : nat).

Inductive LoadState := NetworkIdle | DomContentLoaded.

Inductive Desc := DContinue | DAuthorize | DGithub.

Inductive Page := PConsole | PApps | PAccount.

(** Screenshot names (second argument of [shot]); the file is
    [f"{n:02d}_{name}.png"], kept as the pair of its number and name. *)
Inductive ShotName :=
| SClawcloud | SNoButton | SAfterClick | SLoginFailed | SOAuthFailed
| SFlowDone | SVerifyFailed | SException | SDone
| SGithubLogin | SGithubFilled | SGithubAfter | SVerified
| SDevice | S2FADetect | S2FAMobile | S2FAMobileAt (elapsed : Z)
| S2FACode | S2FACodeSubmitted
| SOAuthAuthorize (attempt : nat) | SClawSignin (attempt : nat).

Definition ShotFile : Type := nat * ShotName.

Inductive Level := INFO | SUCCESS | ERROR | WARN | STEP.

Record Cookie := {
  c_name : string;
  c_value : string;
  c_domain : option string
}.

(** One entry of a [getUpdates] result: [update_id], and of the
    [message] object (when present) the [chat.id] and the [text]. *)
Record Message := {
  msg_chat : option Z;
  msg_text : option Text
}.

Record Update := {
  update_id : Z;
  upd_message : option Message
}.

(** The JSON body of a [getUpdates] reply. *)
Record TgReply := {
  tg_ok : bool;
  tg_result : list Update
}.

(** Captions of [Telegram.photo]. *)
Inductive Caption :=
| CDevicePage | CMobilePage | CMobilePageAt (elapsed : Z) | CCodePage
| CFile (f : ShotFile) | CDone.

(** Exceptions.  [PyError] stands for any [Exception] raised by a
    Playwright or [requests] call, tagged with the call that raised it;
    [SystemExit] is what [sys.exit] raises, which [except Exception] does
    not catch but a bare [except:] does. *)
Inductive Fault :=
| FGoto | FWaitLoad | FVisible | FClick | FFill | FPress | FReload
| FScreenshot | FLocate | FCount | FInnerText | FCookies | FAddCookies
| FLaunch | FHttp | FImport | FSeal.

Inductive Exn :=
| PyError (f : Fault)
| SystemExit (status : Z).

(** The texts passed to [AutoLogin.log], in source order of the methods. *)
Inductive LogText :=
| LClicked (d : Desc) (s : Selector) | LClickFailed (s : Selector) (e : Exn)
| LNewCookie (head tail : string) | LSecretUpdated | LCookieSentTg
| LDeviceWait | LDevicePassed | LDevicePassedAfterClick
| LDeviceWaiting (elapsed : Z) | LDeviceTimeoutForce | LForcedClick
| LDevicePassedForced | LDeviceTimeout
| LCheck2FA (url : string) | LNo2FA | L2FARequired
| LMobileWait | LMobilePassed | LBackToLogin | LMobileWaiting (elapsed : Z)
| LMobileTimeout
| LCodeNeeded | LCodeWaiting | LCodeTimeout | LCodeReceived | LCodeFilled
| LVerifyClicked | LEnterPressed | LCodePassed | LCodeWrong | LNoOtpField
| LLoginGithub | LCredsEntered | LInputFailed (e : Exn) | LLoginClicked
| LCurrentPage (url : string) | LStillVerifying | LContinueClicked
| LFlashError (text : string)
| LOAuthStart | LOnClawCloud | LOnAuthorizePage | LOnGithubPage
| LBackOnSignin | LOAuthWaiting (attempt : nat) | LOAuthTimeout
| LKeepalive | LVisited (p : Page) | LVisitFailed (p : Page) (e : Exn)
| LUsername (u : option string) | LSessionPresent (b : bool)
| LPasswordPresent (b : bool) | LMissingCreds
| LCookieLoaded | LCookieLoadFailed
| LStep1 | LAlreadyLoggedIn | LStep2 | LNoGithubButton | LStep3 | LStep4
| LStep5 | LStep6 | LNoNewCookie | LException (e : Exn).

Definition LogLine : Type := Level * LogText.

(** The [err] argument of [notify]. *)
Inductive Err :=
| ErrNone | ErrNoCreds | ErrNoButton | ErrLogin | ErrOAuth | ErrVerify
| ErrExn (e : Exn).

(** The texts passed to [Telegram.send].  [MNewCookie] is the only one
    that interpolates the cookie value; [MReport] is the message built
    by [notify]. *)
Inductive TgMsg :=
| MCookieUpdated | MNewCookie (value : string)
| MDeviceNeeded | MDevicePassed | MDevicePassedForced | MDeviceTimeout
| MMobileNeeded | MMobilePassed | MMobileTimeout
| MCodeNeeded | MCodeTimeout | MCodeReceived | MCodePassed | MCodeWrong
| MNoOtpField
| MReport (ok : bool) (user : option string) (time : Z) (err : Err)
          (last_logs : list LogLine).

(** What the script does to the outside, in order.  The first group are
    Playwright calls, [ESleep] is [time.sleep]; [ESend], [EPhoto],
    [EWaitCode] and [EUpdate] mark calls of the [Telegram] and
    [SecretUpdater] methods; the rest are HTTP requests. *)
Inductive Event :=
| ELaunch | EClose
| EAddCookies (session : string)
| EGoto (u : string) (timeout : Z)
| EWaitLoad (s : LoadState) (timeout : Z)
| EIsVisible (t : Target) (timeout : Z)
| EClick (t : Target)
| EFill (t : Target) (text : Text)
| EPress (key : string)
| EReload (timeout : Z)
| EScreenshot (f : ShotFile)
| ELocateAll (s : Selector)
| ECount (s : Selector)
| EInnerText (t : Target)
| ECookies
| ESleep (secs : Z)
| ESend (m : TgMsg)
| EPhoto (f : ShotFile) (c : Caption)
| EWaitCode (timeout : Z)
| EUpdate (name value : string)
| EPostMessage (m : TgMsg)
| EPostPhoto (f : ShotFile) (c : Caption)
| EGetUpdates (timeout : Z) (offset : option Z)
| EImportNacl | EGetKey | ESeal (value : string)
| EPutSecret (name value : string).

(** The process state: the fields of the [AutoLogin] object, the page's
    current URL, the clock, and the record of what has been done. *)
Record World := {
  steps : nat;               (* interactions so far: index of the next answer *)
  clock : Z;                 (* time.time(), in milliseconds *)
  url : string;              (* page.url *)
  logs : list LogLine;       (* self.logs *)
  shots : list ShotFile;     (* self.shots *)
  shot_n : nat;              (* self.n *)
  trace : list Event
}.

(** What the outside answers to one interaction.  Each call reads the
    fields that concern it. *)
Record Answer := {
  a_raises : bool;              (* the call raises *)
  a_lat : nat;                  (* time the call takes, ms (added to a sleep) *)
  a_nav : option string;        (* the page has moved to this URL meanwhile *)
  a_visible : bool;             (* is_visible *)
  a_count : nat;                (* number of elements of a locator *)
  a_text : string;              (* inner_text *)
  a_cookies : list Cookie;      (* context.cookies() *)
  a_status : Z;                 (* HTTP status code *)
  a_updates : option Z -> TgReply   (* getUpdates reply, by the offset sent *)
}.

Definition Env : Type := nat -> Answer.

(** ** The monad *)

Inductive Outcome (A : Type) :=
| Ret (a : A)
| Raise (e : Exn)
| OutOfFuel.
Arguments Ret {A} a.
Arguments Raise {A} e.
Arguments OutOfFuel {A}.

Definition M (A : Type) : Type := World -> Outcome A * World.

Definition ret {A} (a : A) : M A := fun w => (Ret a, w).

Definition bind {A B} (m : M A) (k : A -> M B) : M B :=
  fun w => match m w with
           | (Ret a, w1) => k a w1
           | (Raise e, w1) => (Raise e, w1)
           | (OutOfFuel, w1) => (OutOfFuel, w1)
           end.

Definition raise {A} (e : Exn) : M A := fun w => (Raise e, w).

Definition out_of_fuel {A} : M A := fun w => (OutOfFuel, w).

(** [try: m except: h] *)
Definition try_bare {A} (m : M A) (h : M A) : M A :=
  fun w => match m w with
           | (Raise _, w1) => h w1
           | r => r
           end.

(** [try: m except Exception as e: h e] *)
Definition try_exc {A} (m : M A) (h : Exn -> M A) : M A :=
  fun w => match m w with
           | (Raise (PyError f), w1) => h (PyError f) w1
           | r => r
           end.

(** [try: m finally: f] *)
Definition finally {A} (m : M A) (f : M unit) : M A :=
  fun w => let (r, w1) := m w in
           match f w1 with
           | (Ret _, w2) => (r, w2)
           | (Raise e, w2) => (Raise e, w2)
           | (OutOfFuel, w2) => (OutOfFuel, w2)
           end.

Declare Scope m_scope.
Delimit Scope m_scope with m.
Notation "x <- m ;; k" := (bind m (fun x => k))
  (at level 61, m at next level, right associativity) : m_scope.
Notation "m ;; k" := (bind m (fun _ => k))
  (at level 61, right associativity) : m_scope.
Local Open Scope m_scope.

(** The process exit status a finished run leaves: 0 when [run] returns,
    the argument of [sys.exit], 1 for an uncaught exception. *)
Definition exit_status {A} (r : Outcome A) : option Z :=
  match r with
  | Ret _ => Some 0
  | Raise (SystemExit c) => Some c
  | Raise (PyError _) => Some 1
  | OutOfFuel => None
  end.

(** ** Interactions with the outside *)

Definition ShotFile_eq_dec (f g : ShotFile) : {f = g} + {f <> g}.
Proof. repeat decide equality. Defined.

(** [self.logs[-n:]] *)
Definition lastn {A} (n : nat) (l : list A) : list A :=
  skipn (length l - n) l.

Section Program.

Variable cfg : Config.
Variable env : Env.

Definition add_log (l : LogLine) (w : World) : World :=
  {| steps := steps w; clock := clock w; url := url w;
     logs := logs w ++ [l]; shots := shots w; shot_n := shot_n w;
     trace := trace w |}.

Definition add_event (e : Event) (w : World) : World :=
  {| steps := steps w; clock := clock w; url := url w;
     logs := logs w; shots := shots w; shot_n := shot_n w;
     trace := trace w ++ [e] |}.

(** The world after one interaction answered by [a]: the answer is
    consumed, [ms] milliseconds have passed, the page is at [u]. *)
Definition advance (e : Event) (ms : Z) (u : string) (w : World) : World :=
  {| steps := S (steps w); clock := clock w + ms; url := u;
     logs := logs w; shots := shots w; shot_n := shot_n w;
     trace := trace w ++ [e] |}.

Definition moved (a : Answer) (w : World) : string :=
  match a_nav a with Some u => u | None => url w end.

(** [self.log(msg, level)]: [print] and append to [self.logs]. *)
Definition log (t : LogText) (lv : Level) : M unit :=
  fun w => (Ret tt, add_log (lv, t) w).

(** Marks the call of a [Telegram] or [SecretUpdater] method. *)
Definition emit (e : Event) : M unit :=
  fun w => (Ret tt, add_event e w).

(** A Playwright call: it takes time, the page may navigate meanwhile,
    and the call may raise. *)
Definition browser (e : Event) (f : Fault) : M Answer :=
  fun w => let a := env (steps w) in
           (if a_raises a then Raise (PyError f) else Ret a,
            advance e (Z.of_nat (a_lat a)) (moved a w) w).

(** A call that does not involve the page (an HTTP request of
    [requests], an import, a library computation): it takes time and may
    raise; [page.url] is not touched. *)
Definition offpage (e : Event) (f : Fault) : M Answer :=
  fun w => let a := env (steps w) in
           (if a_raises a then Raise (PyError f) else Ret a,
            advance e (Z.of_nat (a_lat a)) (url w) w).

(** [time.sleep(secs)]: at least [secs] seconds pass. *)
Definition sleep (secs : Z) : M unit :=
  fun w => let a := env (steps w) in
           (Ret tt,
            advance (ESleep secs) (1000 * secs + Z.of_nat (a_lat a)) (moved a w) w).

(** Reading a field of the state. *)
Definition gets {A} (f : World -> A) : M A := fun w => (Ret (f w), w).

(** [time.time()] *)
Definition time_time : M Z := gets clock.

(** [page.url] *)
Definition page_url : M string := gets url.

(** [page.goto(target, timeout=...)]: on success the page is at [target]
    unless it was redirected. *)
Definition goto (target : string) (timeout : Z) : M unit :=
  fun w => let a := env (steps w) in
           let e := EGoto target timeout in
           if a_raises a
           then (Raise (PyError FGoto), advance e (Z.of_nat (a_lat a)) (moved a w) w)
           else (Ret tt,
                 advance e (Z.of_nat (a_lat a))
                   (match a_nav a with Some u => u | None => target end) w).

Definition wait_for_load_state (s : LoadState) (timeout : Z) : M unit :=
  browser (EWaitLoad s timeout) FWaitLoad ;; ret tt.

Definition is_visible (t : Target) (timeout : Z) : M bool :=
  a <- browser (EIsVisible t timeout) FVisible ;; ret (a_visible a).

Definition click_on (t : Target) : M unit :=
  browser (EClick t) FClick ;; ret tt.

Definition fill (t : Target) (text : Text) : M unit :=
  browser (EFill t text) FFill ;; ret tt.

(** [browser.close()] in the [finally] of [run]. *)
Definition close_browser : M unit :=
  fun w => let a := env (steps w) in
           (Ret tt, advance EClose (Z.of_nat (a_lat a)) (url w) w).

(** Starting Playwright, the browser, the context and the page (the
    lines of [run] before its [try]); the new page is blank. *)
Definition launch : M unit :=
  fun w => let a := env (steps w) in
           if a_raises a
           then (Raise (PyError FLaunch), advance ELaunch (Z.of_nat (a_lat a)) (url w) w)
           else (Ret tt, advance ELaunch (Z.of_nat (a_lat a)) "about:blank" w).

(** [sys.exit(status)] *)
Definition sys_exit {A} (status : Z) : M A := raise (SystemExit status).

(** ** class Telegram *)

(** [self.ok = bool(self.token and self.chat_id)] *)
Definition tg_enabled : bool :=
  (Str.truthy (tg_token cfg) && Str.truthy (tg_chat_id cfg))%bool.

(** [str(self.chat_id)] *)
Definition chat_id_str : string :=
  match tg_chat_id cfg with Some s => s | None => "None" end.

(** [os.path.exists(path)] for a screenshot file: the files on disk are
    the screenshots this run has taken. *)
Definition path_exists (f : ShotFile) (w : World) : bool :=
  if in_dec ShotFile_eq_dec f (shots w) then true else false.

(** [Telegram.send] *)
Definition tg_send (m : TgMsg) : M unit :=
  emit (ESend m) ;;
  if negb tg_enabled then ret tt
  else try_bare (offpage (EPostMessage m) FHttp ;; ret tt) (ret tt).

(** [Telegram.photo] *)
Definition tg_photo (f : ShotFile) (c : Caption) : M unit :=
  emit (EPhoto f c) ;;
  there <- gets (path_exists f) ;;
  if (negb tg_enabled || negb there)%bool then ret tt
  else try_bare (offpage (EPostPhoto f c) FHttp ;; ret tt) (ret tt).

(** [Telegram.flush_updates] *)
Definition flush_updates : M Z :=
  if negb tg_enabled then ret 0
  else try_bare
         (a <- offpage (EGetUpdates 0 None) FHttp ;;
          let data := a_updates a None in
          match tg_ok data, rev (tg_result data) with
          | true, u :: _ => ret (update_id u + 1)
          | _, _ => ret 0
          end)
         (ret 0).

(** [str(chat.get("id"))] where [chat = msg.get("chat") or {}] and
    [msg = upd.get("message") or {}] *)
Definition chat_str (upd : Update) : string :=
  match upd_message upd with
  | Some m => match msg_chat m with Some z => Str.of_Z z | None => "None" end
  | None => "None"
  end.

(** [(msg.get("text") or "").strip()] *)
Definition text_of (upd : Update) : Text :=
  match upd_message upd with
  | Some m => match msg_text m with Some t => Str.strip t | None => [] end
  | None => []
  end.

(** The [for upd in data.get("result", [])] loop of [wait_code]: the
    offset after the updates read, and the code when one matched. *)
Fixpoint scan_updates (upds : list Update) (offset : Z) : Z * option Text :=
  match upds with
  | [] => (offset, None)
  | upd :: rest =>
      let offset := update_id upd + 1 in
      if negb (String.eqb (chat_str upd) chat_id_str) then scan_updates rest offset
      else match match_code (text_of upd) with
           | Some c => (offset, Some c)
           | None => scan_updates rest offset
           end
  end.

(** How one pass of the [while] body of [wait_code] ends. *)
Inductive Poll :=
| Found (code : Text)            (* return m.group(1) *)
| Again (offset : Z)             (* continue, after the sleep of the not-ok branch *)
| Sleep (offset : Z).            (* fall through to time.sleep(2) *)

Definition poll_once (offset : Z) : M Poll :=
  try_exc
    (a <- offpage (EGetUpdates 20 (Some offset)) FHttp ;;
     let data := a_updates a (Some offset) in
     if negb (tg_ok data) then sleep 2 ;; ret (Again offset)
     else match scan_updates (tg_result data) offset with
          | (_, Some c) => ret (Found c)
          | (offset', None) => ret (Sleep offset')
          end)
    (fun _ => ret (Sleep offset)).

Fixpoint wait_code_loop (fuel : nat) (deadline offset : Z) : M (option Text) :=
  match fuel with
  | O => out_of_fuel
  | S fuel' =>
      now <- time_time ;;
      if now <? deadline then
        p <- poll_once offset ;;
        match p with
        | Found c => ret (Some c)
        | Again offset' => wait_code_loop fuel' deadline offset'
        | Sleep offset' => sleep 2 ;; wait_code_loop fuel' deadline offset'
        end
      else ret None
  end.

(** [Telegram.wait_code(timeout)].  Every pass of the loop sleeps two
    seconds, so [timeout] passes (and one last test) are enough fuel. *)
Definition wait_code (timeout : Z) : M (option Text) :=
  emit (EWaitCode timeout) ;;
  if negb tg_enabled then ret None
  else
    offset <- flush_updates ;;
    now <- time_time ;;
    wait_code_loop (S (Z.to_nat timeout)) (now + 1000 * timeout) offset.

(** ** class SecretUpdater *)

Definition secret_enabled : bool :=
  (Str.truthy (repo_token cfg) && Str.truthy (repo cfg))%bool.

(** [SecretUpdater.update]: import PyNaCl, fetch the public key, seal the
    value, upload it. *)
Definition secret_update (name value : string) : M bool :=
  emit (EUpdate name value) ;;
  if negb secret_enabled then ret false
  else try_exc
         (offpage EImportNacl FImport ;;
          k <- offpage EGetKey FHttp ;;
          if negb (a_status k =? 200) then ret false
          else
            offpage (ESeal value) FSeal ;;
            p <- offpage (EPutSecret name value) FHttp ;;
            ret ((a_status p =? 201) || (a_status p =? 204))%bool)
         (fun _ => ret false).

(** ** class AutoLogin: helpers *)

(** [self.n += 1], giving the new value *)
Definition next_shot_number : M nat :=
  fun w => (Ret (S (shot_n w)),
            {| steps := steps w; clock := clock w; url := url w;
               logs := logs w; shots := shots w; shot_n := S (shot_n w);
               trace := trace w |}).

(** [self.shots.append(f)] *)
Definition keep_shot (f : ShotFile) : M unit :=
  fun w => (Ret tt,
            {| steps := steps w; clock := clock w; url := url w;
               logs := logs w; shots := shots w ++ [f]; shot_n := shot_n w;
               trace := trace w |}).

(** [AutoLogin.shot].  Its result is a non-empty file name, so the
    [if shot:] tests of the callers always pass and are left out. *)
Definition shot (name : ShotName) : M ShotFile :=
  n <- next_shot_number ;;
  let f := (n, name) in
  try_bare
    (browser (EScreenshot f) FScreenshot ;;
     keep_shot f)
    (ret tt) ;;
  ret f.

(** [AutoLogin.find_and_click] (always called with the default timeout) *)
Fixpoint find_and_click (selectors : list Selector) (desc : Desc) : M bool :=
  match selectors with
  | [] => ret false
  | sel :: rest =>
      hit <- try_exc
               (v <- is_visible (First sel) 3000 ;;
                if v then
                  click_on (First sel) ;;
                  log (LClicked desc sel) SUCCESS ;;
                  ret true
                else ret false)
               (fun e => log (LClickFailed sel e) INFO ;; ret false) ;;
      if hit then ret true else find_and_click rest desc
  end.

Definition is_session_cookie (c : Cookie) : bool :=
  (String.eqb (c_name c) "user_session"
   && Str.contains "github" (match c_domain c with Some d => d | None => "" end))%bool.

Fixpoint find_session (cs : list Cookie) : option string :=
  match cs with
  | [] => None
  | c :: rest => if is_session_cookie c then Some (c_value c) else find_session rest
  end.

(** [AutoLogin.get_session] *)
Definition get_session : M (option string) :=
  try_bare
    (a <- browser ECookies FCookies ;; ret (find_session (a_cookies a)))
    (ret None).

(** [AutoLogin.save_cookie] *)
Definition save_cookie (value : option string) : M unit :=
  if negb (Str.truthy value) then ret tt
  else
    let v := match value with Some v => v | None => "" end in
    log (LNewCookie (Str.first_chars 15 v) (Str.last_chars 8 v)) SUCCESS ;;
    ok <- secret_update "GH_SESSION" v ;;
    if ok then
      log LSecretUpdated SUCCESS ;;
      tg_send MCookieUpdated
    else
      tg_send (MNewCookie v) ;;
      log LCookieSentTg SUCCESS.

(** ** Device verification *)

(** ["verified-device" not in url and "device-verification" not in url] *)
Definition left_device_page (u : string) : bool :=
  (negb (Str.contains "verified-device" u)
   && negb (Str.contains "device-verification" u))%bool.

(** ['verified-device' in url or 'device-verification' in url] *)
Definition on_device_page (u : string) : bool :=
  (Str.contains "verified-device" u || Str.contains "device-verification" u)%bool.

Definition continue_buttons : list Selector :=
  [ HasText "button" "Continue"; HasText "a" "Continue";
    HasText "button" "下一步"; HasText "button" "Next";
    AttrEq "button" "type" "submit"; AttrEq "input" "type" "submit";
    Css "button.primary"; Css "button.btn-primary" ].

Definition force_continue_buttons : list Selector :=
  [ HasText "button" "Continue"; HasText "a" "Continue";
    HasText "button" "下一步"; HasText "button" "Next";
    AttrEq "button" "type" "submit"; AttrEq "input" "type" "submit";
    Css "button"; Css "a" ].

(** [int(time.time() - start_time)] *)
Definition elapsed_secs (now start : Z) : Z := Z.quot (now - start) 1000.

(** The [while time.time() < deadline] loop of [wait_device].
    [Some b] is [return b] from inside the loop, [None] is the loop
    running out of time. *)
Fixpoint wait_device_loop (fuel : nat) (start_time deadline last_log_time : Z)
  : M (option bool) :=
  match fuel with
  | O => out_of_fuel
  | S fuel' =>
      now <- time_time ;;
      if now <? deadline then
        u <- page_url ;;
        if left_device_page u then
          log LDevicePassed SUCCESS ;;
          tg_send MDevicePassed ;;
          ret (Some true)
        else
          clicked <- find_and_click continue_buttons DContinue ;;
          passed <- (if clicked then
                       sleep 2 ;;
                       wait_for_load_state NetworkIdle 10000 ;;
                       u1 <- page_url ;;
                       if left_device_page u1 then
                         log LDevicePassedAfterClick SUCCESS ;; ret true
                       else ret false
                     else ret false) ;;
          if passed then ret (Some true)
          else
            now1 <- time_time ;;
            let elapsed := elapsed_secs now1 start_time in
            last <- (if ((elapsed mod 5 =? 0) && negb (elapsed =? last_log_time))%bool
                     then log (LDeviceWaiting elapsed) INFO ;; ret elapsed
                     else ret last_log_time) ;;
            sleep 1 ;;
            wait_device_loop fuel' start_time deadline last
      else ret None
  end.

(** The inner [for element in elements] of the forced sweep; an
    exception of [is_visible] leaves through the outer [try]. *)
Fixpoint force_elements (btn : Selector) (indices : list nat) : M unit :=
  match indices with
  | [] => ret tt
  | i :: rest =>
      v <- is_visible (Nth btn i) 1000 ;;
      if v then
        clicked <- try_bare
                     (click_on (Nth btn i) ;;
                      log LForcedClick SUCCESS ;;
                      sleep 2 ;;
                      ret true)
                     (ret false) ;;
        if clicked then ret tt else force_elements btn rest
      else force_elements btn rest
  end.

Fixpoint force_sweep (btns : list Selector) : M unit :=
  match btns with
  | [] => ret tt
  | btn :: rest =>
      try_bare
        (a <- browser (ELocateAll btn) FLocate ;;
         force_elements btn (seq 0 (a_count a)))
        (ret tt) ;;
      force_sweep rest
  end.

(** [AutoLogin.wait_device].  A pass of the loop that does not return
    sleeps one second, so [DEVICE_VERIFY_WAIT] passes and one last test
    are enough fuel. *)
Definition wait_device : M bool :=
  log LDeviceWait WARN ;;
  f <- shot SDevice ;;
  tg_send MDeviceNeeded ;;
  tg_photo f CDevicePage ;;
  start_time <- time_time ;;
  let deadline := start_time + 1000 * DEVICE_VERIFY_WAIT in
  r <- wait_device_loop (S (Z.to_nat DEVICE_VERIFY_WAIT)) start_time deadline 0 ;;
  match r with
  | Some b => ret b
  | None =>
      log LDeviceTimeoutForce WARN ;;
      force_sweep force_continue_buttons ;;
      u <- page_url ;;
      if left_device_page u then
        log LDevicePassedForced SUCCESS ;;
        tg_send MDevicePassedForced ;;
        ret true
      else
        log LDeviceTimeout ERROR ;;
        tg_send MDeviceTimeout ;;
        ret false
  end.

(** ** Two-factor authentication *)

(** The [while time.time() < deadline] loop of [_handle_mobile_2fa]. *)
Fixpoint mobile_2fa_loop (fuel : nat) (start_time deadline : Z) : M bool :=
  match fuel with
  | O => out_of_fuel
  | S fuel' =>
      now <- time_time ;;
      if now <? deadline then
        sleep 1 ;;
        u <- page_url ;;
        if negb (Str.contains "github.com/sessions/two-factor/" u) then
          log LMobilePassed SUCCESS ;;
          tg_send MMobilePassed ;;
          ret true
        else if Str.contains "github.com/login" u then
          log LBackToLogin ERROR ;;
          ret false
        else
          now1 <- time_time ;;
          let elapsed := elapsed_secs now1 start_time in
          (if ((elapsed mod 10 =? 0) && negb (elapsed =? 0))%bool then
             log (LMobileWaiting elapsed) INFO ;;
             f <- shot (S2FAMobileAt elapsed) ;;
             tg_photo f (CMobilePageAt elapsed)
           else ret tt) ;;
          (if ((elapsed mod 30 =? 0) && negb (elapsed =? 0))%bool then
             try_bare
               (browser (EReload 30000) FReload ;;
                wait_for_load_state DomContentLoaded 30000)
               (ret tt)
           else ret tt) ;;
          mobile_2fa_loop fuel' start_time deadline
      else
        log LMobileTimeout ERROR ;;
        tg_send MMobileTimeout ;;
        ret false
  end.

(** [AutoLogin._handle_mobile_2fa].  Every pass of the loop sleeps one
    second, so [TWO_FACTOR_WAIT] passes and one last test are enough
    fuel. *)
Definition _handle_mobile_2fa : M bool :=
  log LMobileWait WARN ;;
  f <- shot S2FAMobile ;;
  tg_send MMobileNeeded ;;
  tg_photo f CMobilePage ;;
  start_time <- time_time ;;
  let deadline := start_time + 1000 * TWO_FACTOR_WAIT in
  mobile_2fa_loop (S (Z.to_nat TWO_FACTOR_WAIT)) start_time deadline.

Definition otp_selectors : list Selector :=
  [ AttrEq "input" "autocomplete" "one-time-code";
    AttrEq "input" "name" "app_otp"; AttrEq "input" "name" "otp";
    Css "input#app_totp"; Css "input#otp";
    AttrEq "input" "inputmode" "numeric" ].

Definition verify_btns : list Selector :=
  [ HasText "button" "Verify"; AttrEq "button" "type" "submit";
    AttrEq "input" "type" "submit" ].

(** The [for btn_sel in verify_btns] loop; the result is [submitted]. *)
Fixpoint click_verify (btns : list Selector) : M bool :=
  match btns with
  | [] => ret false
  | b :: rest =>
      hit <- try_bare
               (v <- is_visible (First b) 1000 ;;
                if v then
                  click_on (First b) ;;
                  log LVerifyClicked SUCCESS ;;
                  ret true
                else ret false)
               (ret false) ;;
      if hit then ret true else click_verify rest
  end.

(** The [for sel in selectors] loop of [_handle_code_2fa]; [Some b] is
    [return b] from inside the loop. *)
Fixpoint fill_otp (selectors : list Selector) (code : Text) : M (option bool) :=
  match selectors with
  | [] => ret None
  | sel :: rest =>
      r <- try_bare
             (v <- is_visible (First sel) 2000 ;;
              if v then
                fill (First sel) code ;;
                log LCodeFilled SUCCESS ;;
                sleep 1 ;;
                submitted <- click_verify verify_btns ;;
                (if negb submitted then
                   browser (EPress "Enter") FPress ;;
                   log LEnterPressed SUCCESS
                 else ret tt) ;;
                sleep 3 ;;
                wait_for_load_state NetworkIdle 30000 ;;
                shot S2FACodeSubmitted ;;
                u <- page_url ;;
                if negb (Str.contains "github.com/sessions/two-factor/" u) then
                  log LCodePassed SUCCESS ;;
                  tg_send MCodePassed ;;
                  ret (Some true)
                else
                  log LCodeWrong ERROR ;;
                  tg_send MCodeWrong ;;
                  ret (Some false)
              else ret None)
             (ret None) ;;
      match r with
      | Some b => ret (Some b)
      | None => fill_otp rest code
      end
  end.

(** [AutoLogin._handle_code_2fa] *)
Definition _handle_code_2fa : M bool :=
  log LCodeNeeded WARN ;;
  f <- shot S2FACode ;;
  tg_send MCodeNeeded ;;
  tg_photo f CCodePage ;;
  log LCodeWaiting WARN ;;
  code <- wait_code TWO_FACTOR_WAIT ;;
  if negb (Str.truthy_text code) then
    log LCodeTimeout ERROR ;;
    tg_send MCodeTimeout ;;
    ret false
  else
    let c := match code with Some c => c | None => [] end in
    log LCodeReceived SUCCESS ;;
    tg_send MCodeReceived ;;
    r <- fill_otp otp_selectors c ;;
    match r with
    | Some b => ret b
    | None =>
        log LNoOtpField ERROR ;;
        tg_send MNoOtpField ;;
        ret false
    end.

(** [AutoLogin.detect_and_handle_2fa].  The logged URL is shown through
    [_mask_url], which only affects how the line is printed. *)
Definition detect_and_handle_2fa : M bool :=
  u <- page_url ;;
  log (LCheck2FA u) INFO ;;
  if negb (Str.contains "two-factor" u) then
    log LNo2FA SUCCESS ;;
    ret true
  else
    log L2FARequired WARN ;;
    shot S2FADetect ;;
    if Str.contains "two-factor/mobile" u then _handle_mobile_2fa
    else _handle_code_2fa.

(** ** GitHub login *)

Definition submit_selectors : list Selector :=
  [ AttrEq "input" "type" "submit"; AttrEq "button" "type" "submit";
    HasText "button" "Sign in"; HasText "button" "登录" ].

(** The [for sel in submit_selectors] loop of [login_github]. *)
Fixpoint click_submit (selectors : list Selector) : M unit :=
  match selectors with
  | [] => ret tt
  | sel :: rest =>
      hit <- try_bare
               (v <- is_visible (First sel) 2000 ;;
                if v then
                  click_on (First sel) ;;
                  log LLoginClicked SUCCESS ;;
                  ret true
                else ret false)
               (ret false) ;;
      if hit then ret tt else click_submit rest
  end.

Definition all_buttons : Selector :=
  Either (Css "button") (Either (Css "a") (AttrEq "input" "type" "submit")).

(** The [for i in range(min(count, 10))] loop of [login_github]. *)
Fixpoint click_any (indices : list nat) : M unit :=
  match indices with
  | [] => ret tt
  | i :: rest =>
      hit <- try_bare
               (v <- is_visible (Nth all_buttons i) 1000 ;;
                if v then
                  click_on (Nth all_buttons i) ;;
                  log LContinueClicked INFO ;;
                  sleep 2 ;;
                  ret true
                else ret false)
               (ret false) ;;
      if hit then ret tt else click_any rest
  end.

Definition or_empty (o : option string) : string :=
  match o with Some s => s | None => "" end.

(** [AutoLogin.login_github]; [run] has checked that the user name and
    the password are set. *)
Definition login_github : M bool :=
  log LLoginGithub STEP ;;
  shot SGithubLogin ;;
  filled <- try_exc
              (fill (First (AttrEq "input" "name" "login"))
                 (Str.of_string (or_empty (username cfg))) ;;
               fill (First (AttrEq "input" "name" "password"))
                 (Str.of_string (or_empty (password cfg))) ;;
               log LCredsEntered INFO ;;
               ret true)
              (fun e => log (LInputFailed e) ERROR ;; ret false) ;;
  if negb filled then ret false
  else
    shot SGithubFilled ;;
    try_bare (click_submit submit_selectors) (ret tt) ;;
    sleep 3 ;;
    try_bare (wait_for_load_state NetworkIdle 30000) (ret tt) ;;
    shot SGithubAfter ;;
    u <- page_url ;;
    log (LCurrentPage u) INFO ;;
    verified <- (if on_device_page u then
                   ok <- wait_device ;;
                   if negb ok then ret false
                   else
                     sleep 2 ;;
                     try_bare (wait_for_load_state NetworkIdle 15000) (ret tt) ;;
                     shot SVerified ;;
                     u1 <- page_url ;;
                     (if on_device_page u1 then
                        log LStillVerifying WARN ;;
                        a <- browser (ECount all_buttons) FCount ;;
                        click_any (seq 0 (Nat.min (a_count a) 10))
                      else ret tt) ;;
                     ret true
                 else ret true) ;;
    if negb verified then ret false
    else
      ok2 <- detect_and_handle_2fa ;;
      if negb ok2 then ret false
      else
        flash <- try_bare
                   (v <- is_visible (First (Css ".flash-error")) 2000 ;;
                    if v then
                      a <- browser (EInnerText (First (Css ".flash-error"))) FInnerText ;;
                      log (LFlashError (a_text a)) ERROR ;;
                      ret true
                    else ret false)
                   (ret false) ;;
        if flash then ret false else ret true.

(** ** OAuth, keepalive, report, and the run *)

Definition authorize_selectors : list Selector :=
  [ AttrEq "button" "name" "authorize"; HasText "button" "Authorize";
    HasText "button" "授权"; AttrEq "button" "type" "submit";
    AttrSub "button" "data-ga-click" "authorize";
    AttrEq "" "data-octo-click" "oauth_authorize";
    Css "button.btn-primary"; Css "button.primary" ].

Definition github_selectors : list Selector :=
  [ HasText "button" "GitHub"; HasText "button" "Github";
    HasText "button" "github"; HasText "a" "GitHub"; HasText "a" "Github";
    HasText "a" "github"; AttrEq "" "data-provider" "github";
    AttrEq "button" "data-provider" "github";
    AttrEq "a" "data-provider" "github" ].

(** The longer list used by step 2 of [run]. *)
Definition github_selectors_step2 : list Selector :=
  github_selectors ++
  [ AttrSub "" "href" "github.com/login/oauth";
    HasText "button" "Continue with GitHub";
    HasText "button" "Continue with Github" ].

(** ['claw.cloud' in url and 'signin' not in url.lower()] *)
Definition on_clawcloud (u : string) : bool :=
  (Str.contains "claw.cloud" u && negb (Str.contains "signin" (Str.lower u)))%bool.

Definition every_fifth (attempt : nat) (m : M unit) : M unit :=
  if Nat.eqb (attempt mod 5) 0 then m else ret tt.

(** One of the three URL branches of the loop body; [true] is
    [continue], [false] falls through to the [time.sleep(1)] below. *)
Definition oauth_branch (attempt : nat) (u : string) : M bool :=
  if Str.contains "github.com/login/oauth/authorize" u then
    every_fifth attempt
      (shot (SOAuthAuthorize attempt) ;; log LOnAuthorizePage INFO) ;;
    hit <- find_and_click authorize_selectors DAuthorize ;;
    if hit then
      sleep 3 ;;
      try_bare (wait_for_load_state NetworkIdle 20000) (ret tt) ;;
      ret true
    else ret false
  else if (Str.contains "github.com" u && negb (Str.contains "login" u)
           && negb (Str.contains "oauth" u))%bool then
    every_fifth attempt (log LOnGithubPage INFO) ;;
    try_bare
      (goto SIGNIN_URL 30000 ;;
       try_bare (wait_for_load_state NetworkIdle 15000) (ret tt) ;;
       sleep 2 ;;
       ret true)
      (ret false)
  else if (Str.contains "claw.cloud" u && Str.contains "signin" (Str.lower u))%bool then
    every_fifth attempt
      (shot (SClawSignin attempt) ;; log LBackOnSignin INFO) ;;
    hit <- find_and_click github_selectors DGithub ;;
    if hit then
      sleep 3 ;;
      try_bare (wait_for_load_state NetworkIdle 20000) (ret tt) ;;
      ret true
    else ret false
  else ret false.

(** [for attempt in range(max_attempts)] and the two lines after it. *)
Fixpoint oauth_loop (attempts : list nat) : M bool :=
  match attempts with
  | [] =>
      log LOAuthTimeout ERROR ;;
      ret false
  | attempt :: rest =>
      u <- page_url ;;
      if on_clawcloud u then
        log LOnClawCloud SUCCESS ;;
        ret true
      else
        continue <- oauth_branch attempt u ;;
        if continue then oauth_loop rest
        else
          sleep 1 ;;
          every_fifth attempt (log (LOAuthWaiting attempt) INFO) ;;
          oauth_loop rest
  end.

Definition max_attempts : nat := 30.

(** [AutoLogin.complete_oauth_flow] *)
Definition complete_oauth_flow : M bool :=
  log LOAuthStart STEP ;;
  oauth_loop (seq 0 max_attempts).

Definition page_address (p : Page) : string :=
  match p with
  | PConsole => CLAW_CLOUD_URL ++ "/"
  | PApps => CLAW_CLOUD_URL ++ "/apps"
  | PAccount => CLAW_CLOUD_URL ++ "/account"
  end.

Fixpoint visit_all (pages : list Page) : M unit :=
  match pages with
  | [] => ret tt
  | p :: rest =>
      try_exc
        (goto (page_address p) 30000 ;;
         try_bare (wait_for_load_state NetworkIdle 15000) (ret tt) ;;
         log (LVisited p) SUCCESS ;;
         sleep 2)
        (fun e => log (LVisitFailed p e) WARN) ;;
      visit_all rest
  end.

(** [AutoLogin.keepalive] *)
Definition keepalive : M unit :=
  log LKeepalive STEP ;;
  visit_all [PConsole; PApps; PAccount] ;;
  try_bare
    (goto (CLAW_CLOUD_URL ++ "/") 30000 ;;
     wait_for_load_state NetworkIdle 15000 ;;
     sleep 2 ;;
     shot SDone ;;
     ret tt)
    (shot SDone ;; ret tt).

Fixpoint photo_each (fs : list ShotFile) : M unit :=
  match fs with
  | [] => ret tt
  | f :: rest => tg_photo f (CFile f) ;; photo_each rest
  end.

(** [AutoLogin.notify] *)
Definition notify (ok : bool) (err : Err) : M unit :=
  if negb tg_enabled then ret tt
  else
    now <- time_time ;;
    lines <- gets logs ;;
    tg_send (MReport ok (username cfg) now err (lastn 10 lines)) ;;
    taken <- gets shots ;;
    match taken with
    | [] => ret tt
    | s0 :: _ =>
        if negb ok then photo_each (lastn 3 taken)
        else tg_photo (last taken s0) CDone
    end.

(** Step 6 of [run] ("update the cookie") to the end of the [try]
    block. *)
Definition run_update_cookie : M unit :=
  log LStep6 STEP ;;
  new <- get_session ;;
  (if Str.truthy new then save_cookie new
   else log LNoNewCookie WARN) ;;
  notify true ErrNone.

(** Step 4 of [run] ("complete the OAuth flow") to the end of the [try]
    block. *)
Definition run_from_oauth : M unit :=
  log LStep4 STEP ;;
  ok <- complete_oauth_flow ;;
  if negb ok then
    shot SOAuthFailed ;;
    notify false ErrOAuth ;;
    sys_exit 1
  else
    shot SFlowDone ;;
    log LStep5 STEP ;;
    u <- page_url ;;
    if (negb (Str.contains "claw.cloud" u) || Str.contains "signin" (Str.lower u))%bool then
      shot SVerifyFailed ;;
      notify false ErrVerify ;;
      sys_exit 1
    else
      keepalive ;;
      run_update_cookie.

(** Step 2 of [run] ("click GitHub") to the end of the [try] block. *)
Definition run_from_click : M unit :=
  log LStep2 STEP ;;
  hit <- find_and_click github_selectors_step2 DGithub ;;
  if negb hit then
    log LNoGithubButton ERROR ;;
    shot SNoButton ;;
    notify false ErrNoButton ;;
    sys_exit 1
  else
    sleep 3 ;;
    try_bare (wait_for_load_state NetworkIdle 30000) (ret tt) ;;
    shot SAfterClick ;;
    u <- page_url ;;
    log (LCurrentPage u) INFO ;;
    log LStep3 STEP ;;
    (if (Str.contains "github.com/login" u || Str.contains "github.com/session" u)%bool then
       ok <- login_github ;;
       if negb ok then
         shot SLoginFailed ;;
         notify false ErrLogin ;;
         sys_exit 1
       else ret tt
     else ret tt) ;;
    run_from_oauth.

(** The "already logged in" test of [run], on the landing page, to the
    end of the [try] block. *)
Definition run_from_landing : M unit :=
  u <- page_url ;;
  if negb (Str.contains "signin" (Str.lower u)) then
    log LAlreadyLoggedIn SUCCESS ;;
    keepalive ;;
    new <- get_session ;;
    (if Str.truthy new then save_cookie new else ret tt) ;;
    notify true ErrNone
  else run_from_click.

(** The body of the [try] block of [run]. *)
Definition run_body : M unit :=
  (if Str.nonempty (gh_session cfg) then
     try_bare
       (browser (EAddCookies (gh_session cfg)) FAddCookies ;;
        log LCookieLoaded SUCCESS)
       (log LCookieLoadFailed WARN)
   else ret tt) ;;
  log LStep1 STEP ;;
  goto SIGNIN_URL 60000 ;;
  try_bare (wait_for_load_state NetworkIdle 30000) (ret tt) ;;
  sleep 2 ;;
  shot SClawcloud ;;
  run_from_landing.

(** The [try ... except Exception ... finally] of [run] around a body. *)
Definition guarded (body : M unit) : M unit :=
  finally
    (try_exc body
       (fun e =>
          log (LException e) ERROR ;;
          shot SException ;;
          notify false (ErrExn e) ;;
          sys_exit 1))
    close_browser.

(** [AutoLogin.run]; launching the browser, the context and the page is
    one interaction, after which the page is blank. *)
Definition run : M unit :=
  log (LUsername (username cfg)) INFO ;;
  log (LSessionPresent (Str.nonempty (gh_session cfg))) INFO ;;
  log (LPasswordPresent (Str.truthy (password cfg))) INFO ;;
  if (negb (Str.truthy (username cfg)) || negb (Str.truthy (password cfg)))%bool then
    log LMissingCreds ERROR ;;
    notify false ErrNoCreds ;;
    sys_exit 1
  else
    launch ;;
    guarded run_body.

(** * Reasoning about runs *)

#[local] Arguments Z.mul : simpl never.
#[local] Arguments Z.add : simpl never.
#[local] Arguments Z.sub : simpl never.
#[local] Arguments Z.quot : simpl never.
#[local] Arguments Z.modulo : simpl never.
#[local] Arguments Z.ltb : simpl never.
#[local] Arguments Z.eqb : simpl never.
#[local] Arguments Z.of_nat : simpl never.
#[local] Arguments Z.to_nat : simpl never.
#[local] Arguments Str.contains : simpl never.
#[local] Arguments Str.lower : simpl never.

(** ** Outcomes *)

(** A computation is [ordinary] when it returns or raises an
    [Exception]: it never calls [sys.exit] and never runs out of fuel.
    It is [safe] when it always returns. *)
Definition ordinary {A} (m : M A) : Prop :=
  forall w, match fst (m w) with
            | Ret _ | Raise (PyError _) => True
            | _ => False
            end.

Definition safe {A} (m : M A) : Prop :=
  forall w, exists a, fst (m w) = Ret a.

Lemma bind_ret {A B} (m : M A) (k : A -> M B) w a w1 :
  m w = (Ret a, w1) -> bind m k w = k a w1.
Proof. intros E. unfold bind. now rewrite E. Qed.

Lemma bind_raise {A B} (m : M A) (k : A -> M B) w e w1 :
  m w = (Raise e, w1) -> bind m k w = (Raise e, w1).
Proof. intros E. unfold bind. now rewrite E. Qed.

Lemma safe_ordinary {A} (m : M A) : safe m -> ordinary m.
Proof. intros H w. destruct (H w) as [a E]. now rewrite E. Qed.

Lemma safe_run {A} (m : M A) w :
  safe m -> exists a w1, m w = (Ret a, w1).
Proof.
  intros H. destruct (H w) as [a E]. exists a, (snd (m w)).
  destruct (m w); simpl in *; now subst.
Qed.

Lemma safe_ret {A} (a : A) : safe (ret a).
Proof. intros w. now exists a. Qed.

Lemma safe_gets {A} (f : World -> A) : safe (gets f).
Proof. intros w. now exists (f w). Qed.

Lemma safe_bind {A B} (m : M A) (k : A -> M B) :
  safe m -> (forall a, safe (k a)) -> safe (bind m k).
Proof.
  intros Hm Hk w. destruct (safe_run m w Hm) as (a & w1 & E).
  rewrite (bind_ret _ _ _ _ _ E). apply Hk.
Qed.

Lemma safe_try_bare {A} (m h : M A) :
  ordinary m -> safe h -> safe (try_bare m h).
Proof.
  intros Hm Hh w. unfold try_bare. specialize (Hm w).
  destruct (m w) as [[a|e|] w1]; simpl in *.
  - now exists a.
  - apply Hh.
  - contradiction.
Qed.

Lemma safe_try_exc {A} (m : M A) (h : Exn -> M A) :
  ordinary m -> (forall e, safe (h e)) -> safe (try_exc m h).
Proof.
  intros Hm Hh w. unfold try_exc. specialize (Hm w).
  destruct (m w) as [[a|[f|c]|] w1]; simpl in *.
  - now exists a.
  - apply Hh.
  - contradiction.
  - contradiction.
Qed.

Lemma ordinary_ret {A} (a : A) : ordinary (ret a).
Proof. intros w. exact I. Qed.

Lemma ordinary_gets {A} (f : World -> A) : ordinary (gets f).
Proof. intros w. exact I. Qed.

Lemma ordinary_bind {A B} (m : M A) (k : A -> M B) :
  ordinary m -> (forall a, ordinary (k a)) -> ordinary (bind m k).
Proof.
  intros Hm Hk w. unfold bind. specialize (Hm w).
  destruct (m w) as [[a|[f|c]|] w1]; simpl in *; try contradiction.
  - apply Hk.
  - exact I.
Qed.

Lemma ordinary_try_bare {A} (m h : M A) :
  ordinary m -> ordinary h -> ordinary (try_bare m h).
Proof.
  intros Hm Hh w. unfold try_bare. specialize (Hm w).
  destruct (m w) as [[a|[f|c]|] w1]; simpl in *; try contradiction.
  - exact I.
  - apply Hh.
Qed.

Lemma ordinary_try_exc {A} (m : M A) (h : Exn -> M A) :
  ordinary m -> (forall e, ordinary (h e)) -> ordinary (try_exc m h).
Proof.
  intros Hm Hh w. unfold try_exc. specialize (Hm w).
  destruct (m w) as [[a|[f|c]|] w1]; simpl in *; try contradiction.
  - exact I.
  - apply Hh.
Qed.

Lemma safe_log t lv : safe (log t lv).
Proof. intros w. now exists tt. Qed.

Lemma safe_emit e : safe (emit e).
Proof. intros w. now exists tt. Qed.

Lemma safe_sleep s : safe (sleep s).
Proof. intros w. now exists tt. Qed.

Lemma safe_close_browser : safe close_browser.
Proof. intros w. now exists tt. Qed.

Lemma ordinary_browser e f : ordinary (browser e f).
Proof. intros w. unfold browser. simpl. now destruct (a_raises _). Qed.

Lemma ordinary_offpage e f : ordinary (offpage e f).
Proof. intros w. unfold offpage. simpl. now destruct (a_raises _). Qed.

Lemma ordinary_goto u t : ordinary (goto u t).
Proof. intros w. unfold goto. now destruct (a_raises _). Qed.

Lemma ordinary_launch : ordinary launch.
Proof. intros w. unfold launch. now destruct (a_raises _). Qed.

(** ** Relations between the world before and after *)

Class Rel (R : World -> World -> Prop) := {
  rel_refl : forall w, R w w;
  rel_trans : forall a b c, R a b -> R b c -> R a c
}.

Definition keeps (R : World -> World -> Prop) {A} (m : M A) : Prop :=
  forall w, R w (snd (m w)).

Section Keeps.

Context (R : World -> World -> Prop) `{Rel R}.

Lemma keeps_ret {A} (a : A) : keeps R (ret a).
Proof. intros w. apply rel_refl. Qed.

Lemma keeps_raise {A} e : keeps R (@raise A e).
Proof. intros w. apply rel_refl. Qed.

Lemma keeps_gets {A} (f : World -> A) : keeps R (gets f).
Proof. intros w. apply rel_refl. Qed.

Lemma keeps_bind {A B} (m : M A) (k : A -> M B) :
  keeps R m -> (forall a, keeps R (k a)) -> keeps R (bind m k).
Proof.
  intros Hm Hk w. unfold bind. specialize (Hm w).
  destruct (m w) as [[a|e|] w1]; simpl in *; auto.
  eapply rel_trans; [exact Hm | apply Hk].
Qed.

Lemma keeps_try_bare {A} (m h : M A) :
  keeps R m -> keeps R h -> keeps R (try_bare m h).
Proof.
  intros Hm Hh w. unfold try_bare. specialize (Hm w).
  destruct (m w) as [[a|e|] w1]; simpl in *; auto.
  eapply rel_trans; [exact Hm | apply Hh].
Qed.

Lemma keeps_try_exc {A} (m : M A) (h : Exn -> M A) :
  keeps R m -> (forall e, keeps R (h e)) -> keeps R (try_exc m h).
Proof.
  intros Hm Hh w. unfold try_exc. specialize (Hm w).
  destruct (m w) as [[a|[f|c]|] w1]; simpl in *; auto.
  eapply rel_trans; [exact Hm | apply Hh].
Qed.

Lemma keeps_finally {A} (m : M A) (f : M unit) :
  keeps R m -> keeps R f -> keeps R (finally m f).
Proof.
  intros Hm Hf w. unfold finally. specialize (Hm w).
  destruct (m w) as [r w1]. specialize (Hf w1). simpl in *.
  destruct (f w1) as [[a|e|] w2]; simpl in *; eapply rel_trans; eauto.
Qed.

End Keeps.

Lemma keeps_run R {A} (m : M A) w r w1 :
  keeps R m -> m w = (r, w1) -> R w w1.
Proof. intros H E. specialize (H w). now rewrite E in H. Qed.

Create HintDb flow discriminated.

#[local] Hint Resolve safe_ret safe_gets safe_log safe_emit safe_sleep
  safe_close_browser ordinary_ret ordinary_gets ordinary_browser
  ordinary_offpage ordinary_goto ordinary_launch : flow.

(** Takes a goal about a computation apart along its structure and
    closes the leaves with the facts already in [flow]. *)
Ltac flow_step :=
  match goal with
  | |- forall _, _ => intro
  | |- safe (bind _ _) => apply safe_bind
  | |- safe (try_bare _ _) => apply safe_try_bare
  | |- safe (try_exc _ _) => apply safe_try_exc
  | |- ordinary (bind _ _) => apply ordinary_bind
  | |- ordinary (try_bare _ _) => apply ordinary_try_bare
  | |- ordinary (try_exc _ _) => apply ordinary_try_exc
  | |- keeps _ (bind _ _) => apply keeps_bind; [typeclasses eauto | | ]
  | |- keeps _ (try_bare _ _) => apply keeps_try_bare; [typeclasses eauto | | ]
  | |- keeps _ (try_exc _ _) => apply keeps_try_exc; [typeclasses eauto | | ]
  | |- keeps _ (finally _ _) => apply keeps_finally; [typeclasses eauto | | ]
  | |- keeps _ (ret _) => apply keeps_ret; typeclasses eauto
  | |- keeps _ (raise _) => apply keeps_raise; typeclasses eauto
  | |- keeps _ (sys_exit _) => apply keeps_raise; typeclasses eauto
  | |- keeps _ (gets _) => apply keeps_gets; typeclasses eauto
  | |- keeps _ time_time => apply keeps_gets; typeclasses eauto
  | |- keeps _ page_url => apply keeps_gets; typeclasses eauto
  | |- _ (if ?c then _ else _) => destruct c
  | |- _ (match ?x with _ => _ end) => destruct x
  | |- _ => solve [auto with flow]
  | |- _ => apply safe_ordinary; solve [auto with flow]
  end.

Ltac flow := repeat flow_step.

(** Four relations: time does not run backwards; the page has not
    moved; the log has only grown; everything done meanwhile is allowed
    by [p]. *)
Definition later (w w' : World) : Prop := clock w <= clock w'.

Definition same_page (w w' : World) : Prop := url w' = url w.

Definition more_logs (w w' : World) : Prop :=
  exists ls, logs w' = (logs w ++ ls)%list.

Definition did (p : Event -> bool) (w w' : World) : Prop :=
  exists evs, trace w' = (trace w ++ evs)%list /\ forallb p evs = true.

#[local] Instance later_rel : Rel later.
Proof. split; unfold later; intros; lia. Qed.

#[local] Instance same_page_rel : Rel same_page.
Proof. split; unfold same_page; intros; congruence. Qed.

#[local] Instance more_logs_rel : Rel more_logs.
Proof.
  split; unfold more_logs.
  - intros w. exists []. now rewrite app_nil_r.
  - intros a b c [l1 E1] [l2 E2]. exists (l1 ++ l2)%list.
    now rewrite E2, E1, app_assoc.
Qed.

#[local] Instance did_rel p : Rel (did p).
Proof.
  split; unfold did.
  - intros w. exists []. now rewrite app_nil_r.
  - intros a b c (l1 & E1 & P1) (l2 & E2 & P2). exists (l1 ++ l2)%list. split.
    + now rewrite E2, E1, app_assoc.
    + rewrite forallb_app, P1, P2. reflexivity.
Qed.

Lemma did_nothing p w w' : trace w' = trace w -> did p w w'.
Proof. intros E. exists []. now rewrite app_nil_r. Qed.

Lemma did_one p e w w' : p e = true -> trace w' = (trace w ++ [e])%list -> did p w w'.
Proof. intros P E. exists [e]. split; [exact E | simpl; now rewrite P]. Qed.

Lemma more_logs_same w w' : logs w' = logs w -> more_logs w w'.
Proof. intros E. exists []. now rewrite app_nil_r. Qed.

(** *** The primitives *)

Ltac prim :=
  intros; intro w; cbv beta zeta delta [log emit browser offpage sleep goto
    close_browser launch next_shot_number keep_shot];
  repeat match goal with |- context [if ?c then _ else _] => destruct c end;
  simpl;
  first [ unfold later; simpl; lia
        | reflexivity
        | apply more_logs_same; reflexivity
        | eexists; reflexivity
        | apply did_nothing; reflexivity
        | eapply did_one; [eassumption | reflexivity] ].

Lemma later_log t lv : keeps later (log t lv). Proof. prim. Qed.
Lemma later_emit e : keeps later (emit e). Proof. prim. Qed.
Lemma later_browser e f : keeps later (browser e f). Proof. prim. Qed.
Lemma later_offpage e f : keeps later (offpage e f). Proof. prim. Qed.
Lemma later_sleep s : 0 <= s -> keeps later (sleep s). Proof. prim. Qed.
Lemma later_goto u t : keeps later (goto u t). Proof. prim. Qed.
Lemma later_next_shot_number : keeps later next_shot_number. Proof. prim. Qed.
Lemma later_keep_shot f : keeps later (keep_shot f). Proof. prim. Qed.

Lemma same_page_log t lv : keeps same_page (log t lv). Proof. prim. Qed.
Lemma same_page_emit e : keeps same_page (emit e). Proof. prim. Qed.
Lemma same_page_offpage e f : keeps same_page (offpage e f). Proof. prim. Qed.

Lemma more_logs_log t lv : keeps more_logs (log t lv). Proof. prim. Qed.
Lemma more_logs_emit e : keeps more_logs (emit e). Proof. prim. Qed.
Lemma more_logs_browser e f : keeps more_logs (browser e f). Proof. prim. Qed.
Lemma more_logs_offpage e f : keeps more_logs (offpage e f). Proof. prim. Qed.
Lemma more_logs_sleep s : keeps more_logs (sleep s). Proof. prim. Qed.
Lemma more_logs_goto u t : keeps more_logs (goto u t). Proof. prim. Qed.
Lemma more_logs_next_shot_number : keeps more_logs next_shot_number. Proof. prim. Qed.
Lemma more_logs_keep_shot f : keeps more_logs (keep_shot f). Proof. prim. Qed.

Lemma did_log p t lv : keeps (did p) (log t lv). Proof. prim. Qed.
Lemma did_emit p e : p e = true -> keeps (did p) (emit e). Proof. prim. Qed.
Lemma did_browser p e f : p e = true -> keeps (did p) (browser e f). Proof. prim. Qed.
Lemma did_offpage p e f : p e = true -> keeps (did p) (offpage e f). Proof. prim. Qed.
Lemma did_sleep p s : p (ESleep s) = true -> keeps (did p) (sleep s). Proof. prim. Qed.
Lemma did_goto p u t : p (EGoto u t) = true -> keeps (did p) (goto u t). Proof. prim. Qed.
Lemma did_next_shot_number p : keeps (did p) next_shot_number. Proof. prim. Qed.
Lemma did_keep_shot p f : keeps (did p) (keep_shot f). Proof. prim. Qed.

#[local] Hint Resolve later_log later_emit later_browser later_offpage
  later_sleep later_goto later_next_shot_number later_keep_shot
  same_page_log same_page_emit same_page_offpage
  more_logs_log more_logs_emit more_logs_browser more_logs_offpage
  more_logs_sleep more_logs_goto more_logs_next_shot_number
  more_logs_keep_shot
  did_log did_emit did_browser did_offpage did_sleep did_goto
  did_next_shot_number did_keep_shot : flow.

#[local] Hint Extern 1 (_ = true) => reflexivity : flow.
#[local] Hint Extern 1 (0 <= _) => lia : flow.

(** *** The small wrappers *)

Lemma safe_time_time : safe time_time. Proof. apply safe_gets. Qed.
Lemma safe_page_url : safe page_url. Proof. apply safe_gets. Qed.
Lemma safe_next_shot_number : safe next_shot_number.
Proof. intros w. now eexists. Qed.
Lemma safe_keep_shot f : safe (keep_shot f).
Proof. intros w. now eexists. Qed.

#[local] Hint Resolve safe_time_time safe_page_url safe_next_shot_number
  safe_keep_shot : flow.

Lemma ordinary_wait_for_load_state s t : ordinary (wait_for_load_state s t).
Proof. unfold wait_for_load_state. flow. Qed.

Lemma ordinary_is_visible t n : ordinary (is_visible t n).
Proof. unfold is_visible. flow. Qed.

Lemma ordinary_click_on t : ordinary (click_on t).
Proof. unfold click_on. flow. Qed.

Lemma ordinary_fill t s : ordinary (fill t s).
Proof. unfold fill. flow. Qed.

#[local] Hint Resolve ordinary_wait_for_load_state ordinary_is_visible
  ordinary_click_on ordinary_fill : flow.

Lemma later_wait_for_load_state s t : keeps later (wait_for_load_state s t).
Proof. unfold wait_for_load_state. flow. Qed.

Lemma later_is_visible t n : keeps later (is_visible t n).
Proof. unfold is_visible. flow. Qed.

Lemma later_click_on t : keeps later (click_on t).
Proof. unfold click_on. flow. Qed.

Lemma more_logs_wait_for_load_state s t :
  keeps more_logs (wait_for_load_state s t).
Proof. unfold wait_for_load_state. flow. Qed.

Lemma more_logs_is_visible t n : keeps more_logs (is_visible t n).
Proof. unfold is_visible. flow. Qed.

Lemma more_logs_click_on t : keeps more_logs (click_on t).
Proof. unfold click_on. flow. Qed.

#[local] Hint Resolve later_wait_for_load_state later_is_visible
  later_click_on more_logs_wait_for_load_state more_logs_is_visible
  more_logs_click_on : flow.

Lemma safe_shot name : safe (shot name).
Proof. unfold shot. flow. Qed.

Lemma later_shot name : keeps later (shot name).
Proof. unfold shot. flow. Qed.

Lemma more_logs_shot name : keeps more_logs (shot name).
Proof. unfold shot. flow. Qed.

Lemma safe_tg_send m : safe (tg_send m).
Proof. unfold tg_send. flow. Qed.

Lemma later_tg_send m : keeps later (tg_send m).
Proof. unfold tg_send. flow. Qed.

Lemma same_page_tg_send m : keeps same_page (tg_send m).
Proof. unfold tg_send. flow. Qed.

Lemma more_logs_tg_send m : keeps more_logs (tg_send m).
Proof. unfold tg_send. flow. Qed.

Lemma safe_tg_photo f c : safe (tg_photo f c).
Proof. unfold tg_photo. flow. Qed.

Lemma later_tg_photo f c : keeps later (tg_photo f c).
Proof. unfold tg_photo. flow. Qed.

Lemma same_page_tg_photo f c : keeps same_page (tg_photo f c).
Proof. unfold tg_photo. flow. Qed.

Lemma more_logs_tg_photo f c : keeps more_logs (tg_photo f c).
Proof. unfold tg_photo. flow. Qed.

#[local] Hint Resolve safe_shot later_shot more_logs_shot
  safe_tg_send later_tg_send same_page_tg_send more_logs_tg_send
  safe_tg_photo later_tg_photo same_page_tg_photo more_logs_tg_photo : flow.

Lemma safe_find_and_click sels d : safe (find_and_click sels d).
Proof. induction sels as [|sel rest IH]; simpl; flow. Qed.

Lemma later_find_and_click sels d : keeps later (find_and_click sels d).
Proof. induction sels as [|sel rest IH]; simpl; flow. Qed.

Lemma more_logs_find_and_click sels d :
  keeps more_logs (find_and_click sels d).
Proof. induction sels as [|sel rest IH]; simpl; flow. Qed.

#[local] Hint Resolve safe_find_and_click later_find_and_click
  more_logs_find_and_click : flow.

(** * The claims *)

(** ** Saving the renewed cookie (C6, C10) *)

(** Kinds of events. *)
Definition count (p : Event -> bool) (evs : list Event) : nat :=
  length (filter p evs).

(** a call of [SecretUpdater.update] *)
Definition is_update_call (e : Event) : bool :=
  match e with EUpdate _ _ => true | _ => false end.

(** a call of [Telegram.send] whose text is the raw value [v] *)
Definition hands_raw (v : string) (e : Event) : bool :=
  match e with ESend (MNewCookie x) => String.eqb x v | _ => false end.

(** a [sendMessage] request whose text is the raw value [v] *)
Definition posts_raw (v : string) (e : Event) : bool :=
  match e with EPostMessage (MNewCookie x) => String.eqb x v | _ => false end.

(** what [SecretUpdater.update] does after it has been entered *)
Definition store_internal (e : Event) : bool :=
  match e with
  | EImportNacl | EGetKey | ESeal _ | EPutSecret _ _ => true
  | _ => false
  end.

Lemma count_app p a b : count p (a ++ b) = (count p a + count p b)%nat.
Proof. unfold count. now rewrite filter_app, length_app. Qed.

Lemma count_none p q evs :
  (forall e, q e = true -> p e = false) ->
  forallb q evs = true -> count p evs = 0%nat.
Proof.
  intros Hpq. unfold count. induction evs as [|e evs IH]; simpl; auto.
  intros H. apply andb_prop in H as [He Hr]. rewrite (Hpq e He). auto.
Qed.

Lemma tg_send_run m w :
  exists w',
    tg_send m w = (Ret tt, w')
    /\ trace w' = (trace w ++ ESend m :: (if tg_enabled then [EPostMessage m] else []))%list
    /\ logs w' = logs w /\ url w' = url w.
Proof.
  unfold tg_send, emit, bind, try_bare, offpage, ret.
  destruct tg_enabled; cbn.
  - destruct (a_raises _); cbn; eexists;
      (split; [reflexivity|]); cbn; rewrite <- app_assoc; repeat split.
  - eexists; repeat split.
Qed.

Lemma secret_update_run name v w :
  exists ok w' evs,
    secret_update name v w = (Ret ok, w')
    /\ trace w' = (trace w ++ EUpdate name v :: evs)%list
    /\ forallb store_internal evs = true.
Proof.
  assert (S : safe (secret_update name v)) by (unfold secret_update; flow).
  destruct (safe_run _ w S) as (ok & w' & E). exists ok, w'.
  unfold secret_update in E.
  rewrite (bind_ret _ _ w tt (add_event (EUpdate name v) w)) in E by reflexivity.
  set (rest := if negb secret_enabled then _ else _) in E.
  assert (D : keeps (did store_internal) rest) by (subst rest; flow).
  destruct (keeps_run _ _ _ _ _ D E) as (evs & T & P).
  exists evs. repeat split; auto.
  rewrite T. cbn. now rewrite <- app_assoc.
Qed.

(** C6.  Saving a non-empty token calls the credential store's update
    once (no retry).  When that call returns false the raw value is
    handed to the notifier ([Telegram.send]) exactly once; when it
    returns true the raw value is never handed to the notifier.  The
    last part counts the [sendMessage] requests that carry the raw
    value: the one the notifier makes for that single call, when it is
    configured. *)
Theorem C6_raw_token_sent_once_iff_update_fails (v : string) (w : World) :
  v <> "" ->
  exists ok w1 w' evs,
    secret_update "GH_SESSION" v
      (add_log (SUCCESS, LNewCookie (Str.first_chars 15 v) (Str.last_chars 8 v)) w)
    = (Ret ok, w1)
    /\ save_cookie (Some v) w = (Ret tt, w')
    /\ trace w' = (trace w ++ evs)%list
    /\ count is_update_call evs = 1%nat
    /\ count (hands_raw v) evs = (if ok then 0 else 1)%nat
    /\ count (posts_raw v) evs
       = (if ok then 0 else if tg_enabled then 1 else 0)%nat.
Proof.
  intros Hv.
  set (w0 := add_log _ w).
  destruct (secret_update_run "GH_SESSION" v w0) as (ok & w1 & evs & E & T & P).
  assert (U : count is_update_call evs = 0%nat)
    by (eapply count_none; [|exact P]; now intros []).
  assert (H1 : count (hands_raw v) evs = 0%nat)
    by (eapply count_none; [|exact P]; now intros []).
  assert (H2 : count (posts_raw v) evs = 0%nat)
    by (eapply count_none; [|exact P]; now intros []).
  assert (Tv : Str.truthy (Some v) = true) by (destruct v; [congruence | reflexivity]).
  exists ok, w1.
  unfold save_cookie. rewrite Tv. cbn [negb].
  rewrite (bind_ret _ _ w tt w0) by reflexivity.
  rewrite (bind_ret _ _ _ _ _ E).
  destruct ok.
  - destruct (tg_send_run MCookieUpdated (add_log (SUCCESS, LSecretUpdated) w1))
      as (w2 & E2 & T2 & _).
    exists w2, (EUpdate "GH_SESSION" v :: evs
                ++ ESend MCookieUpdated
                   :: (if tg_enabled then [EPostMessage MCookieUpdated] else []))%list.
    rewrite (bind_ret _ _ w1 tt (add_log (SUCCESS, LSecretUpdated) w1)) by reflexivity.
    split; [exact E|]. split; [exact E2|]. split.
    { rewrite T2. cbn [trace add_log]. rewrite T. subst w0. cbn [trace add_log].
      now rewrite <- app_assoc. }
    change (?a :: ?l ++ ?r)%list with ([a] ++ l ++ r)%list.
    rewrite !count_app, U, H1, H2. destruct tg_enabled; repeat split; reflexivity.
  - destruct (tg_send_run (MNewCookie v) w1) as (w2 & E2 & T2 & _).
    exists (add_log (SUCCESS, LCookieSentTg) w2),
      (EUpdate "GH_SESSION" v :: evs
       ++ ESend (MNewCookie v)
          :: (if tg_enabled then [EPostMessage (MNewCookie v)] else []))%list.
    rewrite (bind_ret _ _ _ _ _ E2).
    split; [exact E|]. split; [reflexivity|]. split.
    { cbn [trace add_log]. rewrite T2, T. subst w0. cbn [trace add_log].
      now rewrite <- app_assoc. }
    change (?a :: ?l ++ ?r)%list with ([a] ++ l ++ r)%list.
    rewrite !count_app, U, H1, H2. unfold count.
    destruct tg_enabled; cbn; rewrite String.eqb_refl; repeat split; reflexivity.
Qed.

(** C10.  [save_cookie] with [None] or with the empty string returns at
    once and leaves the whole state as it was: no update of the secret
    store, no message, no log line. *)
Theorem C10_save_cookie_without_value_is_noop (w : World) :
  save_cookie None w = (Ret tt, w) /\ save_cookie (Some "") w = (Ret tt, w).
Proof. split; reflexivity. Qed.

(** ** The two-factor step without a marker (C8) *)

(** an event that reaches the operator or waits for the operator *)
Definition contacts_operator (e : Event) : bool :=
  match e with
  | ESend _ | EPhoto _ _ | EWaitCode _
  | EPostMessage _ | EPostPhoto _ _ | EGetUpdates _ _ => true
  | _ => false
  end.

(** C8.  With no two-factor marker in the URL the step returns [True]
    at once: two log lines are all it does, no time passes, nothing
    outside is touched.  Hence whenever the step does anything that
    reaches the operator, the URL contained the marker. *)
Theorem C8_no_marker_no_operator (w : World) :
  (Str.contains "two-factor" (url w) = false ->
   exists w',
     detect_and_handle_2fa w = (Ret true, w')
     /\ logs w' = (logs w ++ [(INFO, LCheck2FA (url w)); (SUCCESS, LNo2FA)])%list
     /\ trace w' = trace w /\ clock w' = clock w /\ steps w' = steps w
     /\ url w' = url w)
  /\ (forall evs,
        trace (snd (detect_and_handle_2fa w)) = (trace w ++ evs)%list ->
        existsb contacts_operator evs = true ->
        Str.contains "two-factor" (url w) = true).
Proof.
  assert (A : Str.contains "two-factor" (url w) = false ->
              detect_and_handle_2fa w
              = (Ret true, add_log (SUCCESS, LNo2FA) (add_log (INFO, LCheck2FA (url w)) w))).
  { intros H. unfold detect_and_handle_2fa, page_url, gets, bind, log, ret.
    now rewrite H. }
  split.
  - intros H. eexists. split; [apply A, H|].
    cbn. rewrite <- app_assoc. repeat split.
  - intros evs T X. destruct (Str.contains "two-factor" (url w)) eqn:H; auto.
    rewrite (A eq_refl) in T. cbn in T.
    rewrite <- (app_nil_r (trace w)) in T at 1.
    apply app_inv_head in T. subst evs. discriminate.
Qed.

(** ** Stepping through a run *)

Lemma bind_fuel {A B} (m : M A) (k : A -> M B) w w1 :
  m w = (OutOfFuel, w1) -> bind m k w = (OutOfFuel, w1).
Proof. intros E. unfold bind. now rewrite E. Qed.

Lemma bind_log {B} t lv (k : unit -> M B) w :
  bind (log t lv) k w = k tt (add_log (lv, t) w).
Proof. reflexivity. Qed.

Lemma bind_emit {B} e (k : unit -> M B) w :
  bind (emit e) k w = k tt (add_event e w).
Proof. reflexivity. Qed.

Lemma bind_gets {A B} (f : World -> A) (k : A -> M B) w :
  bind (gets f) k w = k (f w) w.
Proof. reflexivity. Qed.

Lemma bind_ret_l {A B} (a : A) (k : A -> M B) w :
  bind (ret a) k w = k a w.
Proof. reflexivity. Qed.

Lemma bind_assoc {A B C} (m : M A) (f : A -> M B) (g : B -> M C) w :
  bind (bind m f) g w = bind m (fun a => bind (f a) g) w.
Proof. unfold bind. now destruct (m w) as [[a|e|] w1]. Qed.

(** An outcome that is a return or an [Exception]. *)
Definition benign {A} (r : Outcome A) : Prop :=
  match r with
  | Ret _ | Raise (PyError _) => True
  | _ => False
  end.

Lemma ordinary_run {A} (m : M A) w r w1 :
  ordinary m -> m w = (r, w1) -> benign r.
Proof. intros H E. specialize (H w). now rewrite E in H. Qed.

Lemma safe_benign {A} (m : M A) w : safe m -> benign (fst (m w)).
Proof. intros H. destruct (H w) as [a E]. now rewrite E. Qed.

(** [step H] splits the first action off the run described by [H]. *)
Ltac step_pure H :=
  cbv beta match zeta in H;
  rewrite ?bind_assoc in H;
  lazymatch type of H with
  | bind (log _ _) _ _ = _ => rewrite bind_log in H
  | bind (emit _) _ _ = _ => rewrite bind_emit in H
  | bind (ret _) _ _ = _ => rewrite bind_ret_l in H
  | bind (gets _) _ _ = _ => rewrite bind_gets in H
  | bind time_time ?k ?w = _ => change (bind time_time k w) with (k (clock w) w) in H
  | bind page_url ?k ?w = _ => change (bind page_url k w) with (k (url w) w) in H
  end;
  cbv beta match zeta in H.

Ltac step_bind H a w1 E :=
  cbv beta match zeta in H;
  rewrite ?bind_assoc in H;
  match type of H with
  | bind ?m ?k ?w = _ =>
      let e := fresh "e" in
      destruct (m w) as [[a|e|] w1] eqn:E;
      [ rewrite (bind_ret _ _ _ _ _ E) in H
      | rewrite (bind_raise _ _ _ _ _ E) in H
      | rewrite (bind_fuel _ _ _ _ E) in H ]
  end.

(** [H] describes a run that has reached its [return]. *)
Ltac fin H := cbv beta match zeta in H; inversion H; subst.

Tactic Notation "step" hyp(H) := step_pure H.
Tactic Notation "step" hyp(H) "as" ident(a) ident(w1) ident(E) :=
  step_bind H a w1 E.

(** The same on the goal. *)
Ltac gstep_pure :=
  first
    [ rewrite bind_assoc
    | rewrite bind_log
    | rewrite bind_emit
    | rewrite bind_ret_l
    | rewrite bind_gets
    | match goal with
      | |- context [bind time_time ?k ?w] =>
          change (bind time_time k w) with (k (clock w) w)
      | |- context [bind page_url ?k ?w] =>
          change (bind page_url k w) with (k (url w) w)
      end ];
  cbv beta match zeta.

(** ** Device verification (C4) *)

Lemma sleep_run s w :
  exists w1, sleep s w = (Ret tt, w1)
             /\ clock w + 1000 * s <= clock w1 /\ logs w1 = logs w.
Proof.
  eexists. split; [reflexivity|]. cbn. split; [lia | reflexivity].
Qed.

Lemma left_not_on u : left_device_page u = negb (on_device_page u).
Proof. unfold left_device_page, on_device_page. now rewrite negb_orb. Qed.

(** What the loop of [wait_device] can return: [True] on a page that is
    no longer a verification page, or nothing once the deadline has
    passed.  It never returns [False], and with one unit of fuel per
    second still to wait it never runs out of fuel. *)
Lemma wait_device_loop_spec k :
  forall start deadline last w,
    deadline <= clock w + 1000 * Z.of_nat k ->
    match wait_device_loop (S k) start deadline last w with
    | (Ret (Some b), w') =>
        b = true /\ left_device_page (url w') = true /\ clock w <= clock w'
    | (Ret None, w') => deadline <= clock w' /\ more_logs w w'
    | (Raise (PyError _), _) => True
    | _ => False
    end.
Proof.
  induction k as [|k IH]; intros start deadline last w Hd.
  - cbn [wait_device_loop]. gstep_pure.
    replace (clock w <? deadline) with false by (symmetry; apply Z.ltb_ge; lia).
    cbn. split; [lia | apply rel_refl].
  - remember (S k) as fuel eqn:Hf. cbn [wait_device_loop]. gstep_pure.
    destruct (clock w <? deadline) eqn:Hnow;
      [| cbn; split; [apply Z.ltb_ge in Hnow; lia | apply rel_refl]].
    gstep_pure.
    destruct (left_device_page (url w)) eqn:Hleft.
    + gstep_pure.
      destruct (safe_run _ (add_log (SUCCESS, LDevicePassed) w) (safe_tg_send MDevicePassed))
        as ([] & w1 & E1).
      rewrite (bind_ret _ _ _ _ _ E1). cbn.
      pose proof (keeps_run _ _ _ _ _ (same_page_tg_send _) E1) as U.
      pose proof (keeps_run _ _ _ _ _ (later_tg_send _) E1) as C.
      unfold same_page in U. unfold later in C. cbn in U, C.
      repeat split; [congruence | lia].
    + destruct (safe_run _ w (safe_find_and_click continue_buttons DContinue))
        as (clicked & w1 & E1).
      rewrite (bind_ret _ _ _ _ _ E1).
      pose proof (keeps_run _ _ _ _ _ (later_find_and_click _ _) E1) as C1.
      unfold later in C1.
      assert (G : forall w2, clock w <= clock w2 -> more_logs w w2 ->
        match bind time_time (fun now1 =>
                let elapsed := elapsed_secs now1 start in
                bind (if ((elapsed mod 5 =? 0) && negb (elapsed =? last))%bool
                      then bind (log (LDeviceWaiting elapsed) INFO) (fun _ => ret elapsed)
                      else ret last)
                     (fun last0 => bind (sleep 1)
                        (fun _ => wait_device_loop fuel start deadline last0))) w2 with
        | (Ret (Some b), w') =>
            b = true /\ left_device_page (url w') = true /\ clock w <= clock w'
        | (Ret None, w') => deadline <= clock w' /\ more_logs w w'
        | (Raise (PyError _), _) => True
        | _ => False
        end).
      { intros w2 C2 L2. gstep_pure.
        set (elapsed := elapsed_secs (clock w2) start).
        destruct ((elapsed mod 5 =? 0) && negb (elapsed =? last))%bool.
        - do 3 gstep_pure.
          destruct (sleep_run 1 (add_log (INFO, LDeviceWaiting elapsed) w2))
            as (w3 & E3 & C3 & L3).
          rewrite (bind_ret _ _ _ _ _ E3). cbn in C3.
          specialize (IH start deadline elapsed w3 ltac:(lia)). subst fuel.
          destruct (wait_device_loop (S k) start deadline elapsed w3)
            as [[[b|]|[f|c]|] w4]; auto.
          + destruct IH as (? & ? & ?). repeat split; auto; lia.
          + destruct IH as (? & L4). split; auto.
            eapply rel_trans; [exact L2|]. eapply rel_trans; [|exact L4].
            exists [(INFO, LDeviceWaiting elapsed)]. now rewrite L3.
        - gstep_pure.
          destruct (sleep_run 1 w2) as (w3 & E3 & C3 & L3).
          rewrite (bind_ret _ _ _ _ _ E3).
          specialize (IH start deadline last w3 ltac:(lia)). subst fuel.
          destruct (wait_device_loop (S k) start deadline last w3)
            as [[[b|]|[f|c]|] w4]; auto.
          + destruct IH as (? & ? & ?). repeat split; auto; lia.
          + destruct IH as (? & L4). split; auto.
            eapply rel_trans; [exact L2|]. eapply rel_trans; [|exact L4].
            exists []. now rewrite L3, app_nil_r. }
      pose proof (keeps_run _ _ _ _ _ (more_logs_find_and_click _ _) E1) as L1.
      destruct clicked.
      * rewrite !bind_assoc.
        destruct (sleep_run 2 w1) as (w2 & E2 & C2 & L2).
        rewrite (bind_ret _ _ _ _ _ E2), ?bind_assoc.
        destruct (wait_for_load_state NetworkIdle 10000 w2) as [[[]|e|] w3] eqn:E3.
        -- rewrite (bind_ret _ _ _ _ _ E3), ?bind_assoc.
           pose proof (keeps_run _ _ _ _ _ (later_wait_for_load_state _ _) E3) as C3.
           unfold later in C3.
           assert (L3 : logs w3 = logs w2).
           { unfold wait_for_load_state, browser, bind in E3.
             destruct (a_raises _); inversion E3; reflexivity. }
           gstep_pure.
           destruct (left_device_page (url w3)) eqn:Hl3.
           ++ repeat gstep_pure. cbn.
              repeat split; auto; lia.
           ++ repeat gstep_pure. apply G; [lia|].
              eapply rel_trans; [exact L1|]. exists [].
              now rewrite L3, L2, app_nil_r.
        -- rewrite (bind_raise _ _ _ _ _ E3).
           pose proof (ordinary_run _ _ _ _ (ordinary_wait_for_load_state _ _) E3) as B.
           destruct e; [exact I | contradiction].
        -- pose proof (ordinary_run _ _ _ _ (ordinary_wait_for_load_state _ _) E3) as B.
           contradiction.
      * gstep_pure. apply G; [lia | exact L1].
Qed.

Lemma ordinary_force_elements btn idx : ordinary (force_elements btn idx).
Proof. induction idx as [|i rest IH]; cbn [force_elements]; flow. Qed.

Lemma later_force_elements btn idx : keeps later (force_elements btn idx).
Proof. induction idx as [|i rest IH]; cbn [force_elements]; flow. Qed.

Lemma more_logs_force_elements btn idx : keeps more_logs (force_elements btn idx).
Proof. induction idx as [|i rest IH]; cbn [force_elements]; flow. Qed.

#[local] Hint Resolve ordinary_force_elements later_force_elements
  more_logs_force_elements : flow.

Lemma safe_force_sweep btns : safe (force_sweep btns).
Proof. induction btns as [|b rest IH]; cbn [force_sweep]; flow. Qed.

Lemma later_force_sweep btns : keeps later (force_sweep btns).
Proof. induction btns as [|b rest IH]; cbn [force_sweep]; flow. Qed.

Lemma more_logs_force_sweep btns : keeps more_logs (force_sweep btns).
Proof. induction btns as [|b rest IH]; cbn [force_sweep]; flow. Qed.

(** Runs the first action of [H], known to be safe by [lem]. *)
Ltac run_safe_as H lem a w1 E :=
  cbv beta match zeta in H;
  rewrite ?bind_assoc in H;
  match type of H with
  | bind ?m ?k ?w = _ =>
      destruct (safe_run m w lem) as (a & w1 & E);
      rewrite (bind_ret _ _ _ _ _ E) in H
  end.

Tactic Notation "run_safe" hyp(H) constr(lem) "as" ident(a) ident(w1) ident(E) :=
  run_safe_as H lem a w1 E.

Lemma more_logs_In l w w' : more_logs w w' -> In l (logs w) -> In l (logs w').
Proof. intros [ls E] H. rewrite E. apply in_or_app. now left. Qed.


(** ** The run around its steps *)

Lemma guarded_ret body w w1 :
  body w = (Ret tt, w1) ->
  exists w2, guarded body w = (Ret tt, w2) /\ logs w2 = logs w1
             /\ trace w2 = (trace w1 ++ [EClose])%list.
Proof.
  intros E. unfold guarded, finally, try_exc. rewrite E. cbn.
  eexists. repeat split.
Qed.

Lemma guarded_exit body w c w1 :
  body w = (Raise (SystemExit c), w1) ->
  exists w2, guarded body w = (Raise (SystemExit c), w2) /\ logs w2 = logs w1
             /\ trace w2 = (trace w1 ++ [EClose])%list.
Proof.
  intros E. unfold guarded, finally, try_exc. rewrite E. cbn.
  eexists. repeat split.
Qed.

(** Once a prefix of the [try] block has completed, the rest of the
    block runs under the same handlers. *)
Lemma guarded_resume {A} (m : M A) (k : A -> M unit) w a w1 :
  m w = (Ret a, w1) -> guarded (bind m k) w = guarded (k a) w1.
Proof.
  intros E. unfold guarded, finally, try_exc.
  now rewrite (bind_ret _ _ _ _ _ E).
Qed.

(** ** The OAuth loop (C5) *)

Lemma safe_every_fifth n m : safe m -> safe (every_fifth n m).
Proof. intros H. unfold every_fifth. flow. Qed.

#[local] Hint Resolve safe_every_fifth : flow.

Lemma safe_oauth_branch attempt u : safe (oauth_branch attempt u).
Proof. unfold oauth_branch, every_fifth. flow. Qed.

#[local] Hint Resolve safe_oauth_branch : flow.

Lemma safe_oauth_loop attempts : safe (oauth_loop attempts).
Proof.
  induction attempts as [|a rest IH]; cbn [oauth_loop]; unfold every_fifth; flow.
Qed.

Lemma safe_complete_oauth_flow : safe complete_oauth_flow.
Proof. unfold complete_oauth_flow. pose proof safe_oauth_loop. flow. Qed.

Lemma safe_photo_each fs : safe (photo_each fs).
Proof. induction fs as [|f rest IH]; cbn [photo_each]; flow. Qed.

#[local] Hint Resolve safe_photo_each : flow.

Lemma safe_notify ok err : safe (notify ok err).
Proof. unfold notify. flow. Qed.

#[local] Hint Resolve safe_notify safe_complete_oauth_flow : flow.

(** What the loop's verdict means: [True] is given on a ClawCloud page
    that is not the sign-in page, [False] after the last attempt, with
    the timeout logged. *)
Lemma oauth_loop_verdict attempts :
  forall w b w',
    oauth_loop attempts w = (Ret b, w') ->
    if b then on_clawcloud (url w') = true
    else In (ERROR, LOAuthTimeout) (logs w').
Proof.
  induction attempts as [|a rest IH]; intros w b w' H; cbn [oauth_loop] in H.
  - step H. fin H. cbn. apply in_or_app. right. now left.
  - step H. destruct (on_clawcloud (url w)) eqn:U.
    + step H. fin H. exact U.
    + step H as continue w1 E1.
      * destruct continue.
        -- eapply IH; eassumption.
        -- run_safe H (safe_sleep 1) as u2 w2 E2.
           run_safe H (safe_every_fifth a _ (safe_log (LOAuthWaiting a) INFO)) as u3 w3 E3.
           eapply IH; eassumption.
      * discriminate.
      * discriminate.
Qed.

(** a failure report of the OAuth step handed to the notifier *)
Definition reports_oauth_failure (e : Event) : bool :=
  match e with
  | ESend (MReport false _ _ ErrOAuth _) => true
  | _ => false
  end.

Lemma did_tg_send p m :
  p (ESend m) = true -> p (EPostMessage m) = true -> keeps (did p) (tg_send m).
Proof. intros. unfold tg_send. flow. Qed.

Lemma did_tg_photo p f c :
  p (EPhoto f c) = true -> p (EPostPhoto f c) = true ->
  keeps (did p) (tg_photo f c).
Proof. intros. unfold tg_photo. flow. Qed.

Lemma did_photo_each p fs :
  (forall f, p (EPhoto f (CFile f)) = true) ->
  (forall f, p (EPostPhoto f (CFile f)) = true) ->
  keeps (did p) (photo_each fs).
Proof.
  intros H1 H2. induction fs as [|f rest IH]; cbn [photo_each]; flow.
  apply did_tg_photo; auto.
Qed.

Lemma more_logs_photo_each fs : keeps more_logs (photo_each fs).
Proof. induction fs as [|f rest IH]; cbn [photo_each]; flow. Qed.

#[local] Hint Resolve more_logs_photo_each : flow.

Lemma more_logs_notify ok err : keeps more_logs (notify ok err).
Proof. unfold notify. flow. Qed.

(** With the notifier configured, [notify] hands it the report first. *)
Lemma notify_sends ok err w :
  tg_enabled = true ->
  exists w' evs,
    notify ok err w = (Ret tt, w')
    /\ trace w' = (trace w ++ ESend (MReport ok (username cfg) (clock w) err
                                      (lastn 10 (logs w))) :: evs)%list.
Proof.
  intros T.
  destruct (safe_run _ w (safe_notify ok err)) as ([] & w' & E).
  exists w'.
  pose proof E as E'.
  unfold notify in E. rewrite T in E. cbn [negb] in E. do 2 step E.
  destruct (tg_send_run (MReport ok (username cfg) (clock w) err (lastn 10 (logs w))) w)
    as (w1 & E1 & T1 & _).
  rewrite (bind_ret _ _ _ _ _ E1) in E. rewrite T in T1.
  set (rest := bind (gets shots) _) in E.
  assert (K : keeps (did (fun _ => true)) rest).
  { subst rest. flow.
    - apply did_photo_each; auto.
    - apply did_tg_photo; auto. }
  destruct (keeps_run _ _ _ _ _ K E) as (evs & T2 & _).
  eexists. split; [exact E'|].
  rewrite T2, T1, <- app_assoc. reflexivity.
Qed.

Lemma oauth_loop_immediate attempt rest w :
  on_clawcloud (url w) = true ->
  oauth_loop (attempt :: rest) w = (Ret true, add_log (SUCCESS, LOnClawCloud) w).
Proof.
  intros U. cbn [oauth_loop]. unfold page_url, gets, bind at 1.
  rewrite U. reflexivity.
Qed.

Lemma complete_oauth_flow_eq w :
  complete_oauth_flow w
  = oauth_loop (seq 0 max_attempts) (add_log (STEP, LOAuthStart) w).
Proof. unfold complete_oauth_flow. apply bind_log. Qed.

Lemma complete_oauth_flow_verdict w0 b w' :
  complete_oauth_flow w0 = (Ret b, w') ->
  if b then on_clawcloud (url w') = true
  else In (ERROR, LOAuthTimeout) (logs w').
Proof. rewrite complete_oauth_flow_eq. apply oauth_loop_verdict. Qed.

(** When the OAuth step fails, [run] takes a screenshot, reports the
    failure and leaves with [sys.exit(1)]. *)
Lemma oauth_failure_ends_run w w1 :
  complete_oauth_flow (add_log (STEP, LStep4) w) = (Ret false, w1) ->
  exists w2 w3,
    run_from_oauth w = (Raise (SystemExit 1), w2)
    /\ guarded run_from_oauth w = (Raise (SystemExit 1), w3)
    /\ logs w3 = logs w2
    /\ more_logs w1 w2
    /\ (tg_enabled = true ->
        exists evs, trace w2 = (trace w1 ++ evs)%list
                    /\ existsb reports_oauth_failure evs = true).
Proof.
  intros H.
  destruct (safe_run _ w1 (safe_shot SOAuthFailed)) as (f & wa & Ea).
  pose proof (keeps_run _ _ _ _ _ (more_logs_shot _) Ea) as La.
  destruct (safe_run _ wa (safe_notify false ErrOAuth)) as ([] & wb & Eb).
  pose proof (keeps_run _ _ _ _ _ (more_logs_notify _ _) Eb) as Lb.
  assert (R : run_from_oauth w = (Raise (SystemExit 1), wb)).
  { unfold run_from_oauth. rewrite bind_log.
    rewrite (bind_ret complete_oauth_flow _ _ _ _ H).
    change (negb false) with true. cbv iota.
    rewrite (bind_ret _ _ _ _ _ Ea), (bind_ret _ _ _ _ _ Eb). reflexivity. }
  destruct (guarded_exit _ _ _ _ R) as (wc & G & Lc & _).
  exists wb, wc. split; [exact R|]. split; [exact G|]. split; [exact Lc|].
  split; [exact (rel_trans _ _ _ La Lb)|].
  intros T.
  destruct (notify_sends false ErrOAuth wa T) as (wb' & evs & Eb' & Tb).
  rewrite Eb in Eb'. inversion Eb'; subst wb'.
  assert (Ka : keeps (did (fun _ => true)) (shot SOAuthFailed))
    by (unfold shot; flow).
  destruct (keeps_run _ _ _ _ _ Ka Ea) as (evs0 & Ta & _).
  exists (evs0 ++ ESend (MReport false (username cfg) (clock wa) ErrOAuth
                           (lastn 10 (logs wa))) :: evs)%list.
  split.
  - rewrite Tb, Ta, <- app_assoc. reflexivity.
  - rewrite existsb_app. apply orb_true_iff. right. reflexivity.
Qed.

(** What one pass of the loop does when it has not found the page on
    ClawCloud: the branch for the current URL, and unless that branch
    ends in [continue], the one-second sleep and the progress line. *)
Definition oauth_step (attempt : nat) : M unit :=
  u <- page_url ;;
  continue <- oauth_branch attempt u ;;
  if continue then ret tt
  else
    sleep 1 ;;
    every_fifth attempt (log (LOAuthWaiting attempt) INFO).

(** [passes attempts w w']: starting in [w], one pass was made for each
    attempt of the list, in order, each of them finding the page off
    ClawCloud (or on its sign-in page), and the last one ended in [w']. *)
Inductive passes : list nat -> World -> World -> Prop :=
| passes_nil w : passes [] w w
| passes_cons attempt rest w w1 w2 :
    on_clawcloud (url w) = false ->
    oauth_step attempt w = (Ret tt, w1) ->
    passes rest w1 w2 ->
    passes (attempt :: rest) w w2.

Lemma safe_oauth_step attempt : safe (oauth_step attempt).
Proof. unfold oauth_step. flow. Qed.

Lemma oauth_loop_unfold attempt rest w :
  oauth_loop (attempt :: rest) w
  = if on_clawcloud (url w)
    then (Ret true, add_log (SUCCESS, LOnClawCloud) w)
    else bind (oauth_step attempt) (fun _ => oauth_loop rest) w.
Proof.
  cbn [oauth_loop]. unfold oauth_step, page_url, gets, bind.
  destruct (on_clawcloud (url w)); [reflexivity|].
  destruct (oauth_branch attempt (url w) w) as [[[|]|e|] w1]; reflexivity.
Qed.

(** The loop makes its passes in order.  It returns [True] at the first
    attempt that finds the page on ClawCloud, right then; it returns
    [False] when a pass has been made for every attempt, after logging
    the timeout. *)
Lemma oauth_loop_run attempts :
  forall w,
    exists b w',
      oauth_loop attempts w = (Ret b, w')
      /\ if b
         then exists done attempt rest wi,
                attempts = (done ++ attempt :: rest)%list
                /\ passes done w wi
                /\ on_clawcloud (url wi) = true
                /\ w' = add_log (SUCCESS, LOnClawCloud) wi
         else exists wn,
                passes attempts w wn
                /\ w' = add_log (ERROR, LOAuthTimeout) wn.
Proof.
  induction attempts as [|a rest IH]; intros w.
  - exists false, (add_log (ERROR, LOAuthTimeout) w). split; [reflexivity|].
    exists w. split; [constructor | reflexivity].
  - rewrite oauth_loop_unfold. destruct (on_clawcloud (url w)) eqn:U.
    + exists true, (add_log (SUCCESS, LOnClawCloud) w). split; [reflexivity|].
      exists [], a, rest, w. repeat split; [constructor | exact U].
    + destruct (safe_run _ w (safe_oauth_step a)) as ([] & w1 & E1).
      rewrite (bind_ret _ _ _ _ _ E1).
      destruct (IH w1) as (b & w' & E & H). exists b, w'. split; [exact E|].
      destruct b.
      * destruct H as (done & a' & rest' & wi & -> & P & Ui & ->).
        exists (a :: done), a', rest', wi.
        repeat split; [econstructor; eassumption | exact Ui].
      * destruct H as (wn & P & ->). exists wn.
        split; [econstructor; eassumption | reflexivity].
Qed.

Lemma split_shorter (attempts done : list nat) attempt rest :
  attempts = (done ++ attempt :: rest)%list -> (length done < length attempts)%nat.
Proof. intros ->. rewrite length_app. cbn. lia. Qed.


(** ** Reusing a session, and a missing cookie (C7, C9) *)

(** What a run does once it is logged in: visit pages, take
    screenshots, read the cookies, store the cookie, send the cookie
    messages and the success report.  Clicking, filling fields,
    pressing keys, probing for elements, reloading, and anything of the
    device-verification or two-factor steps are not in this list. *)
Definition passive (e : Event) : bool :=
  match e with
  | EGoto _ _ | EWaitLoad _ _ | ESleep _ | EScreenshot _ | ECookies => true
  | EUpdate _ _ | EImportNacl | EGetKey | ESeal _ | EPutSecret _ _ => true
  | ESend MCookieUpdated | ESend (MNewCookie _)
  | ESend (MReport true _ _ ErrNone _) => true
  | EPostMessage MCookieUpdated | EPostMessage (MNewCookie _)
  | EPostMessage (MReport true _ _ ErrNone _) => true
  | EPhoto _ CDone | EPostPhoto _ CDone => true
  | _ => false
  end.

Lemma safe_secret_update name v : safe (secret_update name v).
Proof. unfold secret_update. flow. Qed.

Lemma safe_get_session : safe get_session.
Proof. unfold get_session. flow. Qed.

#[local] Hint Resolve safe_secret_update safe_get_session : flow.

Lemma safe_save_cookie value : safe (save_cookie value).
Proof. unfold save_cookie. flow. Qed.

Lemma safe_visit_all pages : safe (visit_all pages).
Proof. induction pages as [|p rest IH]; cbn [visit_all]; flow. Qed.

#[local] Hint Resolve safe_save_cookie safe_visit_all : flow.

Lemma safe_keepalive : safe keepalive.
Proof. unfold keepalive. flow. Qed.

#[local] Hint Resolve safe_keepalive : flow.

Lemma passive_wait_for_load_state s t :
  keeps (did passive) (wait_for_load_state s t).
Proof. unfold wait_for_load_state. flow. Qed.

Lemma passive_shot name : keeps (did passive) (shot name).
Proof. unfold shot. flow. Qed.

#[local] Hint Resolve passive_wait_for_load_state passive_shot : flow.

Lemma passive_visit_all pages : keeps (did passive) (visit_all pages).
Proof. induction pages as [|p rest IH]; cbn [visit_all]; flow. Qed.

#[local] Hint Resolve passive_visit_all : flow.

Lemma passive_secret_update name v : keeps (did passive) (secret_update name v).
Proof. unfold secret_update. flow. Qed.

#[local] Hint Resolve passive_secret_update : flow.

Lemma passive_save_cookie value : keeps (did passive) (save_cookie value).
Proof. unfold save_cookie. flow; apply did_tg_send; reflexivity. Qed.

Lemma passive_notify_success : keeps (did passive) (notify true ErrNone).
Proof.
  unfold notify. cbn [negb]. flow.
  - apply did_tg_send; reflexivity.
  - apply did_tg_photo; reflexivity.
Qed.

Lemma more_logs_save_cookie value : keeps more_logs (save_cookie value).
Proof. unfold save_cookie, secret_update. flow. Qed.

(** [m] begins with the event [e], and all it does after it is
    passive. *)
Definition starts {A} (e : Event) (m : M A) : Prop :=
  forall w, exists evs,
    trace (snd (m w)) = (trace w ++ e :: evs)%list
    /\ forallb passive evs = true.

Lemma starts_goto u t : starts (EGoto u t) (goto u t).
Proof.
  intros w. exists []. unfold goto.
  destruct (a_raises (env (steps w))); split; reflexivity.
Qed.

Lemma starts_bind {A B} e (m : M A) (k : A -> M B) :
  starts e m -> (forall a, keeps (did passive) (k a)) -> starts e (bind m k).
Proof.
  intros Hm Hk w. destruct (Hm w) as (evs & T & P). unfold bind.
  destruct (m w) as [[a|x|] w1]; cbn [snd] in *; try (exists evs; now split).
  destruct (Hk a w1) as (evs2 & T2 & P2). exists (evs ++ evs2)%list. split.
  - rewrite T2, T, <- app_assoc. reflexivity.
  - rewrite forallb_app, P, P2. reflexivity.
Qed.

Lemma starts_try_exc {A} e (m : M A) (h : Exn -> M A) :
  starts e m -> (forall x, keeps (did passive) (h x)) -> starts e (try_exc m h).
Proof.
  intros Hm Hh w. destruct (Hm w) as (evs & T & P). unfold try_exc.
  destruct (m w) as [[a|[f|c]|] w1]; cbn [snd] in *; try (exists evs; now split).
  destruct (Hh (PyError f) w1) as (evs2 & T2 & P2).
  exists (evs ++ evs2)%list. split.
  - rewrite T2, T, <- app_assoc. reflexivity.
  - rewrite forallb_app, P, P2. reflexivity.
Qed.

Lemma starts_visit_all p rest :
  starts (EGoto (page_address p) 30000) (visit_all (p :: rest)).
Proof.
  cbn [visit_all]. apply starts_bind; [|flow].
  apply starts_try_exc; [|flow]. apply starts_bind; [apply starts_goto | flow].
Qed.

(** [keepalive] starts by opening the console page. *)
Lemma keepalive_run w :
  exists w' evs,
    keepalive w = (Ret tt, w')
    /\ trace w' = (trace w ++ EGoto (CLAW_CLOUD_URL ++ "/") 30000 :: evs)%list
    /\ forallb passive evs = true.
Proof.
  destruct (safe_run _ w safe_keepalive) as ([] & w' & E). exists w'.
  assert (S : starts (EGoto (page_address PConsole) 30000)
                (visit_all [PConsole; PApps; PAccount] ;;
                 try_bare
                   (goto (CLAW_CLOUD_URL ++ "/") 30000 ;;
                    wait_for_load_state NetworkIdle 15000 ;;
                    sleep 2 ;;
                    shot SDone ;;
                    ret tt)
                   (shot SDone ;; ret tt)))
    by (apply starts_bind; [apply starts_visit_all | flow]).
  destruct (S (add_log (STEP, LKeepalive) w)) as (evs & T & P).
  exists evs. split; [exact E|]. split; [|exact P].
  unfold keepalive in E. rewrite bind_log in E. rewrite E in T. exact T.
Qed.

Lemma get_session_run w :
  exists new w',
    get_session w = (Ret new, w')
    /\ trace w' = (trace w ++ [ECookies])%list /\ logs w' = logs w.
Proof.
  unfold get_session, try_bare, bind, browser, ret.
  destruct (a_raises _); do 2 eexists; repeat split.
Qed.

Lemma more_logs_visit_all pages : keeps more_logs (visit_all pages).
Proof. induction pages as [|p rest IH]; cbn [visit_all]; flow. Qed.

#[local] Hint Resolve more_logs_visit_all : flow.

(** Membership in a list written with [::] and [++]. *)
Ltac in_list :=
  repeat first [rewrite in_app_iff | progress cbn [In app]]; auto 10.

Lemma more_logs_keepalive : keeps more_logs keepalive.
Proof. unfold keepalive. flow. Qed.

(** C7.  When the landing page is not the sign-in page, the rest of the
    run returns normally (exit status 0).  All it does is passive: it
    starts with the keepalive visits, reads the cookies, stores the
    cookie if there is one, and sends the success report.  There is no
    click, no field filled, no key pressed, nothing of the
    device-verification or two-factor steps. *)
Theorem C7_valid_session_skips_login (w : World) :
  Str.contains "signin" (Str.lower (url w)) = false ->
  exists w' evs,
    run_from_landing w = (Ret tt, w')
    /\ trace w' = (trace w ++ evs)%list
    /\ forallb passive evs = true
    /\ hd_error evs = Some (EGoto (CLAW_CLOUD_URL ++ "/") 30000)
    /\ In ECookies evs
    /\ (tg_enabled = true ->
        exists t ls, In (ESend (MReport true (username cfg) t ErrNone ls)) evs)
    /\ In (SUCCESS, LAlreadyLoggedIn) (logs w')
    /\ exit_status (fst (guarded run_from_landing w)) = Some 0.
Proof.
  intros H.
  set (w0 := add_log (SUCCESS, LAlreadyLoggedIn) w).
  destruct (keepalive_run w0) as (w1 & evs1 & E1 & T1 & P1).
  pose proof (keeps_run _ _ _ _ _ more_logs_keepalive E1) as L1.
  destruct (get_session_run w1) as (new & w2 & E2 & T2 & L2).
  set (store := if Str.truthy new then save_cookie new else ret tt).
  assert (Ss : safe store) by (subst store; flow).
  assert (Ps : keeps (did passive) store)
    by (subst store; destruct (Str.truthy new);
        [apply passive_save_cookie | apply keeps_ret; typeclasses eauto]).
  assert (Ls : keeps more_logs store)
    by (subst store; destruct (Str.truthy new);
        [apply more_logs_save_cookie | apply keeps_ret; typeclasses eauto]).
  destruct (safe_run _ w2 Ss) as ([] & w3 & E3).
  destruct (keeps_run _ _ _ _ _ Ps E3) as (evs3 & T3 & P3).
  pose proof (keeps_run _ _ _ _ _ Ls E3) as L3.
  destruct (safe_run _ w3 (safe_notify true ErrNone)) as ([] & w4 & E4).
  destruct (keeps_run _ _ _ _ _ passive_notify_success E4) as (evs4 & T4 & P4).
  pose proof (keeps_run _ _ _ _ _ (more_logs_notify _ _) E4) as L4.
  assert (R : run_from_landing w = (Ret tt, w4)).
  { unfold run_from_landing. change (bind page_url ?k w) with (k (url w) w).
    cbv beta. rewrite H. cbn [negb]. rewrite bind_log. fold w0.
    rewrite (bind_ret _ _ _ _ _ E1), (bind_ret _ _ _ _ _ E2).
    fold store. rewrite (bind_ret _ _ _ _ _ E3). exact E4. }
  exists w4, (EGoto (CLAW_CLOUD_URL ++ "/") 30000 :: evs1 ++ [ECookies] ++ evs3 ++ evs4)%list.
  split; [exact R|]. split.
  { rewrite T4, T3, T2, T1. subst w0. cbn [trace add_log].
    rewrite <- !app_assoc. reflexivity. }
  split.
  { cbn [forallb passive]. rewrite !forallb_app, P1, P3, P4. reflexivity. }
  split; [reflexivity|]. split.
  { in_list. }
  split.
  { intros T. destruct (notify_sends true ErrNone w3 T) as (w4' & evs' & E4' & T4').
    rewrite E4 in E4'. inversion E4'; subst w4'.
    rewrite T4' in T4. apply app_inv_head in T4. subst evs4.
    exists (clock w3), (lastn 10 (logs w3)).
    in_list. }
  split.
  { eapply more_logs_In; [exact L4|]. eapply more_logs_In; [exact L3|].
    rewrite L2. eapply more_logs_In; [exact L1|].
    subst w0. cbn. apply in_or_app. right. now left. }
  destruct (guarded_ret _ _ _ R) as (w5 & G & _). now rewrite G.
Qed.

(** an update of the secret store, or a report of a failed run *)
Definition update_or_failure (e : Event) : bool :=
  match e with
  | EUpdate _ _ | ESend (MReport false _ _ _ _) => true
  | _ => false
  end.

(** what [notify] does for a successful run: the report and the last
    screenshot *)
Definition success_report (e : Event) : bool :=
  match e with
  | ESend (MReport true _ _ ErrNone _)
  | EPostMessage (MReport true _ _ ErrNone _)
  | EPhoto _ CDone | EPostPhoto _ CDone => true
  | _ => false
  end.

Lemma report_notify_success : keeps (did success_report) (notify true ErrNone).
Proof.
  unfold notify. cbn [negb]. flow.
  - apply did_tg_send; reflexivity.
  - apply did_tg_photo; reflexivity.
Qed.

Lemma success_report_only evs :
  forallb success_report evs = true ->
  forallb passive evs = true /\ existsb update_or_failure evs = false.
Proof.
  induction evs as [|e r IH]; [now split|]. cbn [forallb existsb].
  intros H. apply andb_prop in H as [He Hr]. destruct (IH Hr) as [-> ->].
  rewrite andb_true_r, orb_false_r.
  destruct e; try discriminate; cbn in He |- *.
  - destruct m; try discriminate. destruct ok; [|discriminate].
    destruct err; try discriminate. now split.
  - destruct c; try discriminate. now split.
  - destruct m; try discriminate. destruct ok; [|discriminate].
    destruct err; try discriminate. now split.
  - destruct c; try discriminate. now split.
Qed.

(** C9.  At the cookie step of a run that has logged in, when no session
    cookie is found the run logs the warning, makes no update of the
    secret store, reports success and not failure, and returns normally
    (exit status 0). *)
Theorem C9_missing_cookie_is_only_a_warning (w : World) :
  fst (get_session (add_log (STEP, LStep6) w)) = Ret None ->
  exists w' evs,
    run_update_cookie w = (Ret tt, w')
    /\ In (WARN, LNoNewCookie) (logs w')
    /\ trace w' = (trace w ++ evs)%list
    /\ forallb passive evs = true
    /\ existsb update_or_failure evs = false
    /\ (tg_enabled = true ->
        exists t ls, In (ESend (MReport true (username cfg) t ErrNone ls)) evs)
    /\ exit_status (fst (guarded run_update_cookie w)) = Some 0.
Proof.
  intros H.
  set (w0 := add_log (STEP, LStep6) w) in *.
  destruct (get_session_run w0) as (new & w1 & E1 & T1 & L1).
  rewrite E1 in H. cbn in H. inversion H; subst new. clear H.
  set (w2 := add_log (WARN, LNoNewCookie) w1).
  destruct (safe_run _ w2 (safe_notify true ErrNone)) as ([] & w3 & E3).
  destruct (keeps_run _ _ _ _ _ report_notify_success E3) as (evs3 & T3 & S3).
  destruct (success_report_only _ S3) as [P3 N].
  pose proof (keeps_run _ _ _ _ _ (more_logs_notify _ _) E3) as L3.
  assert (R : run_update_cookie w = (Ret tt, w3)).
  { unfold run_update_cookie. rewrite bind_log. fold w0.
    rewrite (bind_ret _ _ _ _ _ E1). cbn [Str.truthy].
    rewrite bind_log. exact E3. }
  exists w3, (ECookies :: evs3).
  split; [exact R|]. split.
  { eapply more_logs_In; [exact L3|]. subst w2. cbn. apply in_or_app.
    right. now left. }
  split.
  { rewrite T3. subst w2. cbn [trace add_log]. rewrite T1. subst w0.
    cbn [trace add_log]. rewrite <- app_assoc. reflexivity. }
  split; [cbn [forallb passive]; exact P3|].
  split; [cbn [existsb update_or_failure]; exact N|].
  split.
  { intros T. destruct (notify_sends true ErrNone w2 T) as (w3' & evs' & E3' & T3').
    rewrite E3 in E3'. inversion E3'; subst w3'.
    rewrite T3' in T3. apply app_inv_head in T3. subst evs3.
    exists (clock w2), (lastn 10 (logs w2)). right. now left. }
  destruct (guarded_ret _ _ _ R) as (w5 & G & _). now rewrite G.
Qed.

(** ** Waiting for the code over Telegram (C2, C3) *)

(** *** The pattern *)

Lemma after_split p : forall t rest, Str.after p t = Some rest -> t = (p ++ rest)%list.
Proof.
  induction p as [|a p IH]; intros t rest H; cbn in H.
  - now inversion H.
  - destruct t as [|b t]; [discriminate|].
    destruct (N.eqb_spec a b) as [->|]; [|discriminate].
    cbn. f_equal. now apply IH.
Qed.

Lemma span_split p : forall s h r,
  Str.span p s = (h, r) -> s = (h ++ r)%list /\ forallb p h = true.
Proof.
  induction s as [|c s IH]; intros h r H; cbn in H.
  - inversion H; subst. now split.
  - destruct (p c) eqn:Pc.
    + destruct (Str.span p s) as [h' t'] eqn:E. inversion H; subst.
      destruct (IH _ _ eq_refl) as [-> F]. cbn. rewrite Pc, F. now split.
    + inversion H; subst. now split.
Qed.

Lemma lstrip_head s :
  match Str.lstrip s with c :: _ => Str.is_space c = false | [] => True end.
Proof.
  induction s as [|c s IH]; cbn; [exact I|].
  destruct (Str.is_space c) eqn:Sc; [exact IH | exact Sc].
Qed.

(** A stripped text does not end in whitespace. *)
Lemma strip_last s x c : Str.strip s = (x ++ [c])%list -> Str.is_space c = false.
Proof.
  unfold Str.strip, Str.rstrip. intros H.
  apply (f_equal (@rev N)) in H. rewrite rev_involutive, rev_app_distr in H.
  cbn in H. pose proof (lstrip_head (rev (Str.lstrip s))) as L.
  now rewrite H in L.
Qed.

(** What a text accepted by the pattern looks like: [c] is six to eight
    decimal digits. *)
Definition code_shape (c : Text) : Prop :=
  (6 <= length c <= 8)%nat /\ forallb Str.is_digit c = true.

Definition command_for (c text : Text) : Prop :=
  exists ws tail,
    text = (Str.of_string "/code" ++ ws ++ c ++ tail)%list
    /\ ws <> [] /\ forallb Str.is_space ws = true
    /\ (tail = [] \/ tail = [10%N]).

Lemma at_end_cases tail : at_end tail = true -> tail = [] \/ tail = [10%N].
Proof.
  destruct tail as [|c [|d l]]; cbn; intros H; try discriminate; auto.
  apply N.eqb_eq in H. subst. now right.
Qed.

Lemma match_code_sound text c :
  match_code text = Some c -> code_shape c /\ command_for c text.
Proof.
  unfold match_code.
  destruct (Str.after (Str.of_string "/code") text) as [rest|] eqn:P; [|discriminate].
  apply after_split in P.
  destruct (Str.span Str.is_space rest) as [ws rest'] eqn:E1.
  destruct (Str.span Str.is_digit rest') as [ds tail] eqn:E2.
  destruct (span_split _ _ _ _ E1) as [S1 F1].
  destruct (span_split _ _ _ _ E2) as [S2 F2].
  destruct (_ && _)%bool eqn:B; [|discriminate].
  intros H. inversion H; subst c. clear H.
  apply andb_prop in B as [B B4]. apply andb_prop in B as [B B3].
  apply andb_prop in B as [B1 B2].
  apply Nat.leb_le in B2, B3.
  split; [split; [lia | exact F2]|].
  exists ws, tail. split; [|split; [|split]].
  - now rewrite P, S1, S2.
  - intros ->. discriminate.
  - exact F1.
  - now apply at_end_cases.
Qed.

(** On a stripped text the pattern accepts [/code], whitespace and the
    digits, with nothing after them. *)
Lemma match_code_stripped t c :
  match_code (Str.strip t) = Some c ->
  code_shape c /\
  exists ws, Str.strip t = (Str.of_string "/code" ++ ws ++ c)%list
             /\ ws <> [] /\ forallb Str.is_space ws = true.
Proof.
  intros H. destruct (match_code_sound _ _ H) as [Sh (ws & tail & E & N & F & T)].
  split; [exact Sh|]. exists ws. destruct T as [->| ->].
  - rewrite E, app_nil_r. repeat split; auto.
  - exfalso. rewrite !app_assoc in E. apply strip_last in E. discriminate E.
Qed.

(** *** The scan of one reply *)

(** [upd] is a message of the configured chat whose text is the command
    carrying [c] *)
Definition accepted (c : Text) (upd : Update) : Prop :=
  chat_str upd = chat_id_str /\ match_code (text_of upd) = Some c.

Lemma scan_found upds : forall o o' c,
  scan_updates upds o = (o', Some c) ->
  exists upd, In upd upds /\ accepted c upd.
Proof.
  induction upds as [|u upds IH]; intros o o' c H; cbn in H; [discriminate|].
  destruct (String.eqb (chat_str u) chat_id_str) eqn:Ec; cbn in H.
  - destruct (match_code (text_of u)) as [d|] eqn:Em.
    + inversion H; subst. exists u. split; [now left|].
      split; [now apply String.eqb_eq | exact Em].
    + destruct (IH _ _ _ H) as (upd & I & A). exists upd. split; [now right | exact A].
  - destruct (IH _ _ _ H) as (upd & I & A). exists upd. split; [now right | exact A].
Qed.

Lemma scan_offset upds : forall o o' r,
  scan_updates upds o = (o', r) ->
  o' = o \/ exists upd, In upd upds /\ o' = update_id upd + 1.
Proof.
  induction upds as [|u upds IH]; intros o o' r H; cbn in H.
  - inversion H. now left.
  - assert (K : forall r', scan_updates upds (update_id u + 1) = (o', r') ->
                o' = o \/ exists upd, In upd (u :: upds) /\ o' = update_id upd + 1).
    { intros r' H'. right. destruct (IH _ _ _ H') as [->|(upd & I & ->)].
      - exists u. split; [now left | reflexivity].
      - exists upd. split; [now right | reflexivity]. }
    destruct (String.eqb (chat_str u) chat_id_str); cbn in H.
    + destruct (match_code (text_of u)).
      * inversion H; subst. right. exists u. split; [now left | reflexivity].
      * eapply K, H.
    + eapply K, H.
Qed.

(** *** The polling loop *)

(** The [n]-th interaction is a [getUpdates] request with offset [off]
    that succeeds and lists [upd]. *)
Definition listed (n : nat) (off : Z) (upd : Update) : Prop :=
  a_raises (env n) = false
  /\ tg_ok (a_updates (env n) (Some off)) = true
  /\ In upd (tg_result (a_updates (env n) (Some off))).

(** The server lists no update below the offset it is asked for. *)
Definition honours_offset : Prop :=
  forall n off upd,
    In upd (tg_result (a_updates (env n) (Some off))) -> off <= update_id upd.

(** The updates pending at the server when a call starts in [w]: what
    the request of [flush_updates] is answered with. *)
Definition pending (w : World) : list Update :=
  tg_result (a_updates (env (steps w)) None).

Definition flush_succeeds (w : World) : Prop :=
  a_raises (env (steps w)) = false
  /\ tg_ok (a_updates (env (steps w)) None) = true.

(** the last update of the list has the largest identifier *)
Definition ascending (l : list Update) : Prop :=
  forall u rest, rev l = u :: rest -> forall v, In v l -> update_id v <= update_id u.

(** The code [c] returned by a call that ran from [w] to [w'] was taken
    from an update that was not pending when the call started. *)
Definition fresh_origin (w w' : World) (c : Text) : Prop :=
  exists n off upd,
    (steps w <= n < steps w')%nat
    /\ listed n off upd /\ accepted c upd /\ ~ In upd (pending w).

Definition never_replays (timeout : Z) (w : World) : Prop :=
  forall c w', wait_code timeout w = (Ret (Some c), w') -> fresh_origin w w' c.

Lemma poll_once_run offset w :
  exists p w1,
    poll_once offset w = (Ret p, w1)
    /\ (steps w < steps w1)%nat /\ clock w <= clock w1
    /\ match p with
       | Found c => exists upd, listed (steps w) offset upd /\ accepted c upd
       | Again o' => o' = offset /\ clock w + 2000 <= clock w1
       | Sleep o' =>
           o' = offset
           \/ exists upd, listed (steps w) offset upd /\ o' = update_id upd + 1
       end.
Proof.
  unfold poll_once, try_exc, bind, offpage, sleep, ret.
  destruct (a_raises (env (steps w))) eqn:R; cbn.
  - eexists _, _. split; [reflexivity|]. cbn. repeat split; try lia; try (now left).
  - destruct (tg_ok (a_updates (env (steps w)) (Some offset))) eqn:K; cbn.
    + destruct (scan_updates _ offset) as [o' [c|]] eqn:S.
      * eexists _, _. split; [reflexivity|]. cbn. repeat split; try lia.
        destruct (scan_found _ _ _ _ S) as (upd & I & A).
        exists upd. repeat split; auto; apply A.
      * eexists _, _. split; [reflexivity|]. cbn. repeat split; try lia.
        destruct (scan_offset _ _ _ _ S) as [->|(upd & I & ->)]; [now left|].
        right. exists upd. repeat split; auto.
    + eexists _, _. split; [reflexivity|]. cbn. repeat split; lia.
Qed.

Lemma wait_code_loop_eq k deadline offset w :
  wait_code_loop (S k) deadline offset w
  = if clock w <? deadline
    then bind (poll_once offset)
           (fun p => match p with
                     | Found c => ret (Some c)
                     | Again offset' => wait_code_loop k deadline offset'
                     | Sleep offset' => sleep 2 ;; wait_code_loop k deadline offset'
                     end) w
    else (Ret None, w).
Proof. cbn [wait_code_loop]. unfold time_time, gets, bind. now destruct (_ <? _). Qed.

(** With enough fuel for the time left, the loop returns: a code taken
    from an accepted update listed meanwhile, or nothing once the
    deadline has passed. *)
Lemma wait_code_loop_run k : forall deadline offset w,
  deadline <= clock w + 1000 * Z.of_nat k ->
  exists r w',
    wait_code_loop (S k) deadline offset w = (Ret r, w')
    /\ (steps w <= steps w')%nat
    /\ match r with
       | None => deadline <= clock w'
       | Some c =>
           exists n off upd,
             (steps w <= n < steps w')%nat
             /\ listed n off upd /\ accepted c upd
             /\ (honours_offset -> offset <= update_id upd)
       end.
Proof.
  induction k as [|k IH]; intros deadline offset w D; rewrite wait_code_loop_eq.
  - destruct (clock w <? deadline) eqn:T; [apply Z.ltb_lt in T; lia|].
    apply Z.ltb_ge in T. exists None, w. repeat split; auto.
  - destruct (clock w <? deadline) eqn:T.
    2:{ apply Z.ltb_ge in T. exists None, w. repeat split; auto. }
    destruct (poll_once_run offset w) as (p & w1 & E & S1 & C1 & P).
    rewrite (bind_ret _ _ _ _ _ E). destruct p as [c|o'|o'].
    + exists (Some c), w1. split; [reflexivity|]. split; [lia|].
      destruct P as (upd & L & A). exists (steps w), offset, upd.
      split; [lia|]. split; [exact L|]. split; [exact A|].
      intros Ho. apply (Ho (steps w)), L.
    + destruct P as [-> C2].
      destruct (IH deadline offset w1) as (r & w' & E' & S' & Q); [lia|].
      exists r, w'. split; [exact E'|]. split; [lia|].
      destruct r as [c|]; [|exact Q].
      destruct Q as (n & off & upd & N & L & A & O).
      exists n, off, upd. split; [lia|]. split; [exact L|]. split; [exact A|].
      exact O.
    + set (w2 := snd (sleep 2 w1)).
      assert (E2 : sleep 2 w1 = (Ret tt, w2)) by reflexivity.
      assert (S2 : steps w2 = S (steps w1)) by reflexivity.
      assert (C2 : clock w1 + 2000 <= clock w2) by (subst w2; cbn; lia).
      rewrite (bind_ret _ _ _ _ _ E2).
      destruct (IH deadline o' w2) as (r & w' & E' & S' & Q); [lia|].
      exists r, w'. split; [exact E'|]. split; [lia|].
      destruct r as [c|]; [|exact Q].
      destruct Q as (n & off & upd & N & L & A & O).
      exists n, off, upd. split; [lia|]. split; [exact L|]. split; [exact A|].
      intros Ho. specialize (O Ho).
      destruct P as [->|(u & Lu & ->)]; [exact O|].
      pose proof (Ho (steps w) offset u (proj2 (proj2 Lu))). lia.
Qed.

Lemma flush_updates_run w :
  exists o w1,
    flush_updates w = (Ret o, w1)
    /\ (steps w <= steps w1)%nat /\ clock w <= clock w1
    /\ (tg_enabled = true -> a_raises (env (steps w)) = true -> o = 0)
    /\ (tg_enabled = true -> flush_succeeds w ->
        match rev (pending w) with
        | u :: _ => o = update_id u + 1
        | [] => o = 0
        end).
Proof.
  unfold flush_updates, flush_succeeds, pending.
  destruct tg_enabled; cbn [negb].
  2:{ exists 0, w. split; [reflexivity|]. split; [lia|]. split; [lia|].
      split; discriminate. }
  unfold try_bare, bind, offpage, ret.
  destruct (a_raises (env (steps w))) eqn:R; cbn.
  - eexists _, _. split; [reflexivity|]. cbn.
    split; [lia|]. split; [lia|]. split; [reflexivity|].
    intros _ [F _]. discriminate F.
  - destruct (tg_ok (a_updates (env (steps w)) None)) eqn:K; cbn.
    + destruct (rev (tg_result (a_updates (env (steps w)) None))) as [|u rest] eqn:V;
        eexists _, _; (split; [reflexivity|]); cbn;
        (split; [lia|]); (split; [lia|]);
        (split; [intros _ F; discriminate F | intros _ _; reflexivity]).
    + eexists _, _. split; [reflexivity|]. cbn.
      split; [lia|]. split; [lia|].
      split; [intros _ F; discriminate F | intros _ [_ F]; discriminate F].
Qed.

(** The call as a whole, when the notifier is configured. *)
Lemma wait_code_run timeout w :
  tg_enabled = true ->
  exists o w0 r w',
    flush_updates (add_event (EWaitCode timeout) w) = (Ret o, w0)
    /\ wait_code timeout w = (Ret r, w')
    /\ (steps w <= steps w0)%nat
    /\ match r with
       | None => clock w + 1000 * timeout <= clock w'
       | Some c =>
           exists n off upd,
             (steps w0 <= n < steps w')%nat
             /\ listed n off upd /\ accepted c upd
             /\ (honours_offset -> o <= update_id upd)
       end.
Proof.
  intros T. set (we := add_event (EWaitCode timeout) w).
  destruct (flush_updates_run we) as (o & w0 & E0 & S0 & C0 & _).
  destruct (wait_code_loop_run (Z.to_nat timeout) (clock w0 + 1000 * timeout) o w0)
    as (r & w' & E & S' & Q); [lia|].
  exists o, w0, r, w'. split; [exact E0|]. split.
  { unfold wait_code. rewrite bind_emit, T. cbn [negb]. fold we.
    rewrite (bind_ret _ _ _ _ _ E0). exact E. }
  split; [exact S0|]. destruct r as [c|]; [exact Q|].
  change (clock we) with (clock w) in C0. lia.
Qed.

Lemma accepted_text c upd :
  accepted c upd ->
  code_shape c /\
  exists ws, text_of upd = (Str.of_string "/code" ++ ws ++ c)%list
             /\ ws <> [] /\ forallb Str.is_space ws = true.
Proof.
  intros [_ H]. unfold text_of in *.
  destruct (upd_message upd) as [m|]; [|discriminate].
  destruct (msg_text m) as [t|]; [|discriminate].
  now apply match_code_stripped.
Qed.

Lemma scan_skips pre :
  forall o rest,
    (forall u, In u pre ->
               chat_str u <> chat_id_str \/ match_code (text_of u) = None) ->
    scan_updates (pre ++ rest) o
    = scan_updates rest (match rev pre with u :: _ => update_id u + 1 | [] => o end).
Proof.
  induction pre as [|u pre IH]; intros o rest H; [reflexivity|].
  cbn [app scan_updates].
  assert (K : scan_updates (pre ++ rest) (update_id u + 1)
              = scan_updates rest
                  (match rev (u :: pre) with v :: _ => update_id v + 1 | [] => o end)).
  { rewrite IH by (intros v I; apply H; now right). cbn [rev].
    destruct (rev pre) as [|v l] eqn:V; reflexivity. }
  destruct (H u (or_introl eq_refl)) as [C|C].
  - apply String.eqb_neq in C. rewrite C. cbn [negb]. exact K.
  - destruct (String.eqb (chat_str u) chat_id_str); cbn [negb]; [|exact K].
    rewrite C. exact K.
Qed.

Lemma scan_first_match pre upd post c o :
  (forall u, In u pre ->
             chat_str u <> chat_id_str \/ match_code (text_of u) = None) ->
  accepted c upd ->
  scan_updates (pre ++ upd :: post) o = (update_id upd + 1, Some c).
Proof.
  intros H [A1 A2]. rewrite (scan_skips pre _ _ H). cbn [scan_updates].
  apply String.eqb_eq in A1. rewrite A1, A2. reflexivity.
Qed.

(** A flush whose request raises, or is answered with a reply that is
    not ok, gives offset 0. *)
Lemma flush_updates_failed w :
  tg_enabled = true ->
  a_raises (env (steps w)) = true
  \/ tg_ok (a_updates (env (steps w)) None) = false ->
  flush_updates w
  = (Ret 0, advance (EGetUpdates 0 None) (Z.of_nat (a_lat (env (steps w))))
              (url w) w).
Proof.
  intros T H. unfold flush_updates. rewrite T. cbn [negb].
  unfold try_bare, bind, offpage, ret. cbv beta zeta.
  destruct (a_raises (env (steps w))); [reflexivity|].
  destruct H as [H|H]; [discriminate H|]. now rewrite H.
Qed.

(** A request of the loop that is answered, before the deadline, with a
    reply whose first accepted update carries [c] ends the wait with
    [c]. *)
Lemma wait_code_loop_first_match k deadline o w0 pre upd post c :
  clock w0 < deadline ->
  a_raises (env (steps w0)) = false ->
  tg_ok (a_updates (env (steps w0)) (Some o)) = true ->
  tg_result (a_updates (env (steps w0)) (Some o)) = (pre ++ upd :: post)%list ->
  (forall u, In u pre ->
             chat_str u <> chat_id_str \/ match_code (text_of u) = None) ->
  accepted c upd ->
  wait_code_loop (S k) deadline o w0
  = (Ret (Some c),
     advance (EGetUpdates 20 (Some o)) (Z.of_nat (a_lat (env (steps w0))))
       (url w0) w0).
Proof.
  intros D R K L P A. rewrite wait_code_loop_eq.
  apply Z.ltb_lt in D. rewrite D.
  assert (E : poll_once o w0
              = (Ret (Found c),
                 advance (EGetUpdates 20 (Some o))
                   (Z.of_nat (a_lat (env (steps w0)))) (url w0) w0)).
  { unfold poll_once, try_exc, bind, offpage, ret. cbv beta zeta.
    rewrite R, K. cbn [negb]. rewrite L, (scan_first_match _ _ _ _ _ P A).
    reflexivity. }
  now rewrite (bind_ret _ _ _ _ _ E).
Qed.

Lemma wait_code_first_match timeout w o w0 pre upd post c :
  tg_enabled = true -> 0 < timeout ->
  flush_updates (add_event (EWaitCode timeout) w) = (Ret o, w0) ->
  a_raises (env (steps w0)) = false ->
  tg_ok (a_updates (env (steps w0)) (Some o)) = true ->
  tg_result (a_updates (env (steps w0)) (Some o)) = (pre ++ upd :: post)%list ->
  (forall u, In u pre ->
             chat_str u <> chat_id_str \/ match_code (text_of u) = None) ->
  accepted c upd ->
  wait_code timeout w
  = (Ret (Some c),
     advance (EGetUpdates 20 (Some o)) (Z.of_nat (a_lat (env (steps w0))))
       (url w0) w0).
Proof.
  intros T Pos E0 R K L P A. unfold wait_code. rewrite bind_emit, T. cbn [negb].
  rewrite (bind_ret _ _ _ _ _ E0).
  change (bind time_time ?k w0) with (k (clock w0) w0). cbv beta.
  apply wait_code_loop_first_match with (pre := pre) (upd := upd) (post := post);
    auto. lia.
Qed.

(** C3.  [wait_code] always returns.  A code it returns is a string of
    six to eight decimal digits (the digits of [\d]: any Unicode decimal
    digit), taken from an update listed in reply to one of its own
    requests, whose chat identity is the configured one and whose
    stripped text is [/code], whitespace, and the digits.  When it
    returns nothing (and the notifier is configured) the deadline has
    passed; and it returns nothing whenever no listed message of the
    configured chat matches the pattern, whatever other chats send.
    When its first request after the flush is answered with a reply in
    which an update of the configured chat matches the pattern, it
    returns the code of the first such update. *)
Theorem C3_code_only_from_configured_chat (timeout : Z) (w : World) :
  exists r w',
    wait_code timeout w = (Ret r, w')
    /\ (forall c, r = Some c ->
          code_shape c
          /\ exists n off upd ws,
               (steps w <= n < steps w')%nat /\ listed n off upd
               /\ chat_str upd = chat_id_str
               /\ text_of upd = (Str.of_string "/code" ++ ws ++ c)%list
               /\ ws <> [] /\ forallb Str.is_space ws = true)
    /\ (r = None -> tg_enabled = true -> clock w + 1000 * timeout <= clock w')
    /\ ((forall n off upd,
           listed n off upd -> chat_str upd = chat_id_str ->
           match_code (text_of upd) = None) ->
        r = None)
    /\ (forall o w0 pre upd post c,
          tg_enabled = true -> 0 < timeout ->
          flush_updates (add_event (EWaitCode timeout) w) = (Ret o, w0) ->
          listed (steps w0) o upd ->
          tg_result (a_updates (env (steps w0)) (Some o)) = (pre ++ upd :: post)%list ->
          (forall u, In u pre ->
                     chat_str u <> chat_id_str \/ match_code (text_of u) = None) ->
          accepted c upd ->
          r = Some c).
Proof.
  assert (F : forall r w',
    wait_code timeout w = (Ret r, w') ->
    forall o w0 pre upd post c,
      tg_enabled = true -> 0 < timeout ->
      flush_updates (add_event (EWaitCode timeout) w) = (Ret o, w0) ->
      listed (steps w0) o upd ->
      tg_result (a_updates (env (steps w0)) (Some o)) = (pre ++ upd :: post)%list ->
      (forall u, In u pre ->
                 chat_str u <> chat_id_str \/ match_code (text_of u) = None) ->
      accepted c upd ->
      r = Some c).
  { intros r w' E o w0 pre upd post c T Pos E0 (R & K & _) L P A.
    rewrite (wait_code_first_match _ _ _ _ _ _ _ _ T Pos E0 R K L P A) in E.
    now inversion E. }
  destruct tg_enabled eqn:T.
  - destruct (wait_code_run timeout w T) as (o & w0 & r & w' & _ & E & S0 & Q).
    exists r, w'. split; [exact E|]. destruct r as [c|].
    + destruct Q as (n & off & upd & N & L & A & _).
      destruct (accepted_text _ _ A) as (Sh & ws & Tx & Nw & Fw).
      split; [|split].
      * intros c' H. inversion H; subst c'. split; [exact Sh|].
        exists n, off, upd, ws. split; [lia|]. split; [exact L|].
        split; [apply A|]. split; [exact Tx|]. split; [exact Nw | exact Fw].
      * discriminate.
      * split; [|exact (F _ _ E)].
        intros H. destruct A as [A1 A2]. rewrite (H n off upd L A1) in A2.
        discriminate.
    + split; [discriminate|]. split; [auto|]. split; [auto | exact (F _ _ E)].
  - exists None, (add_event (EWaitCode timeout) w). split.
    { unfold wait_code. rewrite bind_emit, T. reflexivity. }
    split; [discriminate|]. split; [discriminate|]. split; [reflexivity|].
    intros o w0 pre upd post c T'. congruence.
Qed.

(** C2, as the code behaves.  When the flush request fails (it raises, or
    its reply is not ok), [flush_updates] gives offset 0, so the first
    request of the wait asks for everything the server still holds.  An
    update that was already pending when the call started, comes from
    the configured chat and carries a code is then returned: the old
    code is replayed, which the flush was written to prevent. *)
Theorem C2_failed_flush_replays_pending_code
    (timeout : Z) (w : World) (pre post : list Update) (upd : Update) (c : Text) :
  tg_enabled = true -> 0 < timeout ->
  a_raises (env (steps w)) = true
  \/ tg_ok (a_updates (env (steps w)) None) = false ->
  In upd (pending w) ->
  a_raises (env (S (steps w))) = false ->
  tg_ok (a_updates (env (S (steps w))) (Some 0)) = true ->
  tg_result (a_updates (env (S (steps w))) (Some 0)) = (pre ++ upd :: post)%list ->
  (forall u, In u pre ->
             chat_str u <> chat_id_str \/ match_code (text_of u) = None) ->
  accepted c upd ->
  exists w',
    flush_updates (add_event (EWaitCode timeout) w)
    = (Ret 0, advance (EGetUpdates 0 None) (Z.of_nat (a_lat (env (steps w))))
                (url w) (add_event (EWaitCode timeout) w))
    /\ wait_code timeout w = (Ret (Some c), w')
    /\ trace w'
       = (trace w ++ [EWaitCode timeout; EGetUpdates 0 None;
                      EGetUpdates 20 (Some 0)])%list.
Proof.
  intros T Pos Fl _ R K L P A.
  pose proof (flush_updates_failed (add_event (EWaitCode timeout) w) T Fl) as E0.
  eexists. split; [exact E0|]. split.
  - eapply wait_code_first_match; eauto.
  - cbn. rewrite <- !app_assoc. reflexivity.
Qed.

(** X15.  The protection the flush gives when it works.  When the server
    lists nothing below the offset it is asked for, a code that [wait_code]
    returns comes from an update that is not below the offset
    [flush_updates] returned when the call started.  That offset is past
    the pending updates when the flush request succeeds: then (the
    pending updates being listed in ascending order) no update pending
    at the start is the origin of the code.  When the flush request
    raises, or its reply is not ok, the offset is 0. *)
Theorem X15_no_replay_when_flush_succeeds (timeout : Z) (w : World) :
  honours_offset -> tg_enabled = true ->
  exists o w0 r w',
    flush_updates (add_event (EWaitCode timeout) w) = (Ret o, w0)
    /\ wait_code timeout w = (Ret r, w')
    /\ (forall c, r = Some c ->
          exists n off upd,
            (steps w0 <= n < steps w')%nat
            /\ listed n off upd /\ accepted c upd /\ o <= update_id upd)
    /\ (flush_succeeds w -> ascending (pending w) -> never_replays timeout w)
    /\ (a_raises (env (steps w)) = true
        \/ tg_ok (a_updates (env (steps w)) None) = false -> o = 0).
Proof.
  intros Ho T.
  destruct (wait_code_run timeout w T) as (o & w0 & r & w' & E0 & E & S0 & Q).
  destruct (flush_updates_run (add_event (EWaitCode timeout) w))
    as (o' & w0' & E0' & _ & _ & Z0 & F0).
  rewrite E0 in E0'. inversion E0'; subst o' w0'. clear E0'.
  exists o, w0, r, w'. split; [exact E0|]. split; [exact E|].
  assert (K : forall c, r = Some c ->
              exists n off upd,
                (steps w0 <= n < steps w')%nat
                /\ listed n off upd /\ accepted c upd /\ o <= update_id upd).
  { intros c ->. destruct Q as (n & off & upd & N & L & A & O).
    exists n, off, upd. split; [exact N|]. split; [exact L|].
    split; [exact A | exact (O Ho)]. }
  split; [exact K|]. split.
  2:{ intros Fl.
      rewrite (flush_updates_failed (add_event (EWaitCode timeout) w) T Fl) in E0.
      now inversion E0. }
  intros Fs Asc c w'' E'. rewrite E in E'. inversion E'; subst w''.
  destruct (K c H0) as (n & off & upd & N & L & A & O).
  exists n, off, upd. split; [lia|]. split; [exact L|]. split; [exact A|].
  intros I. specialize (F0 T Fs).
  change (pending (add_event (EWaitCode timeout) w)) with (pending w) in F0.
  destruct (rev (pending w)) as [|u rest] eqn:V.
  - apply in_rev in I. rewrite V in I. destruct I.
  - pose proof (Asc u rest V upd I). lia.
Qed.

(** ** The mobile two-factor wait (C1) *)

Lemma mobile_2fa_loop_eq k start_time deadline w :
  clock w < deadline ->
  mobile_2fa_loop (S k) start_time deadline w
  = bind (sleep 1)
      (fun _ =>
         u <- page_url ;;
         if negb (Str.contains "github.com/sessions/two-factor/" u) then
           log LMobilePassed SUCCESS ;;
           tg_send MMobilePassed ;;
           ret true
         else if Str.contains "github.com/login" u then
           log LBackToLogin ERROR ;;
           ret false
         else
           now1 <- time_time ;;
           let elapsed := elapsed_secs now1 start_time in
           (if ((elapsed mod 10 =? 0) && negb (elapsed =? 0))%bool then
              log (LMobileWaiting elapsed) INFO ;;
              f <- shot (S2FAMobileAt elapsed) ;;
              tg_photo f (CMobilePageAt elapsed)
            else ret tt) ;;
           (if ((elapsed mod 30 =? 0) && negb (elapsed =? 0))%bool then
              try_bare
                (browser (EReload 30000) FReload ;;
                 wait_for_load_state DomContentLoaded 30000)
                (ret tt)
            else ret tt) ;;
           mobile_2fa_loop k start_time deadline) w.
Proof.
  intros T. apply Z.ltb_lt in T. cbn [mobile_2fa_loop].
  change (bind time_time ?k w) with (k (clock w) w). cbv beta. now rewrite T.
Qed.

(** C1, as the code behaves.  While the wait is running, if the page is
    found on a GitHub login address (one that contains
    [github.com/login] and, like every such address, not the two-factor
    path), the step logs that the two-factor check has passed, tells the
    operator so, and returns [True]: the test for having left the
    two-factor path comes first, so the test for the login page below it
    is never reached with such an address. *)
Theorem C1_return_to_login_page_is_reported_as_success
    (k : nat) (start_time deadline : Z) (u : string) (w : World) :
  clock w < deadline ->
  a_nav (env (steps w)) = Some u ->
  Str.contains "github.com/login" u = true ->
  Str.contains "github.com/sessions/two-factor/" u = false ->
  exists w',
    mobile_2fa_loop (S k) start_time deadline w = (Ret true, w')
    /\ url w' = u
    /\ logs w' = (logs w ++ [(SUCCESS, LMobilePassed)])%list
    /\ exists evs,
         trace w' = (trace w ++ ESleep 1 :: ESend MMobilePassed :: evs)%list.
Proof.
  intros T N L P. rewrite (mobile_2fa_loop_eq _ _ _ _ T).
  set (w1 := snd (sleep 1 w)).
  assert (E1 : sleep 1 w = (Ret tt, w1)) by reflexivity.
  assert (U1 : url w1 = u) by (subst w1; cbn; unfold moved; now rewrite N).
  rewrite (bind_ret _ _ _ _ _ E1).
  change (bind page_url ?k w1) with (k (url w1) w1). cbv beta.
  rewrite U1, P. cbn [negb]. rewrite bind_log.
  destruct (tg_send_run MMobilePassed (add_log (SUCCESS, LMobilePassed) w1))
    as (w2 & E2 & T2 & L2 & U2).
  rewrite (bind_ret _ _ _ _ _ E2). exists w2. split; [reflexivity|].
  split; [now rewrite U2|]. split; [now rewrite L2|].
  eexists. rewrite T2. subst w1. cbn [trace add_log sleep snd advance].
  rewrite <- app_assoc. reflexivity.
Qed.

(** * Further properties of the script *)

(** ** The command pattern of [wait_code] *)

(** The whitespace characters, one by one. *)
Definition spaces : list N :=
  [ 9; 10; 11; 12; 13; 28; 29; 30; 31; 32; 133; 160; 5760;
    8192; 8193; 8194; 8195; 8196; 8197; 8198; 8199; 8200; 8201; 8202;
    8232; 8233; 8239; 8287; 12288 ]%N.

Lemma is_space_spaces c : Str.is_space c = true -> In c spaces.
Proof.
  unfold Str.is_space, Str.within. rewrite !orb_true_iff, !andb_true_iff.
  rewrite !N.leb_le, !N.eqb_eq. cbn [In spaces]. lia.
Qed.

(** No decimal digit is a whitespace character. *)
Lemma digit_not_space c : Str.is_digit c = true -> Str.is_space c = false.
Proof.
  intros H. destruct (Str.is_space c) eqn:E; [|reflexivity].
  apply is_space_spaces in E. cbn [In spaces] in E.
  repeat (destruct E as [<-|E]; [vm_compute in H; discriminate H|]).
  destruct E.
Qed.

Lemma span_app p h r :
  forallb p h = true ->
  match r with [] => True | c :: _ => p c = false end ->
  Str.span p (h ++ r)%list = (h, r).
Proof.
  induction h as [|x h IH]; intros F R.
  - destruct r as [|c r]; cbn; [reflexivity | now rewrite R].
  - cbn in F. apply andb_prop in F as [Px F]. cbn. rewrite Px, (IH F R).
    reflexivity.
Qed.

Lemma after_app p t : Str.after p (p ++ t)%list = Some t.
Proof.
  induction p as [|x p IH]; [reflexivity|]. cbn. now rewrite N.eqb_refl.
Qed.

Lemma match_code_complete ws c tail :
  ws <> [] -> forallb Str.is_space ws = true ->
  code_shape c -> tail = [] \/ tail = [10%N] ->
  match_code (Str.of_string "/code" ++ ws ++ c ++ tail)%list = Some c.
Proof.
  intros Nw Fw [Len Fc] T. unfold match_code. rewrite after_app.
  rewrite (span_app Str.is_space ws (c ++ tail)%list Fw).
  2:{ destruct c as [|d c]; [cbn in Len; lia|]. cbn in Fc |- *.
      apply andb_prop in Fc as [Fd _]. now apply digit_not_space. }
  rewrite (span_app Str.is_digit c tail Fc).
  2:{ destruct T as [->| ->]; [exact I | reflexivity]. }
  assert (W : Str.nonempty_text ws = true) by (destruct ws; [congruence | reflexivity]).
  rewrite W. destruct Len as [L6 L8].
  apply Nat.leb_le in L6, L8. rewrite L6, L8.
  destruct T as [->| ->]; reflexivity.
Qed.

(** X1.  The pattern of [wait_code] accepts a text and extracts [c]
    exactly when [c] is a run of six to eight decimal digits and the
    text is [/code], one or more whitespace characters, [c], and then
    nothing or one final line feed. *)
Theorem X1_pattern_accepts_exactly_the_command (text c : Text) :
  match_code text = Some c <-> code_shape c /\ command_for c text.
Proof.
  split.
  - apply match_code_sound.
  - intros (Sh & ws & tail & -> & Nw & Fw & T). now apply match_code_complete.
Qed.

(** ** The scan of one [getUpdates] reply *)

(** X2.  The scan of a reply returns the code of the first update that
    comes from the configured chat and matches the pattern, with the
    offset just past that update: the updates after it in the reply are
    not looked at.  The updates before it, from other chats or with
    other texts, are skipped. *)
Theorem X2_scan_returns_the_first_match
    (pre post : list Update) (upd : Update) (c : Text) (o : Z) :
  (forall u, In u pre ->
             chat_str u <> chat_id_str \/ match_code (text_of u) = None) ->
  accepted c upd ->
  scan_updates (pre ++ upd :: post) o = (update_id upd + 1, Some c).
Proof. apply scan_first_match. Qed.

(** X3.  When no update of a reply is accepted the scan returns no code
    and the offset is one past the last update of the reply (the old
    offset for an empty reply): every update of the reply is consumed. *)
Theorem X3_scan_without_match_consumes_the_reply (upds : list Update) (o : Z) :
  (forall u, In u upds ->
             chat_str u <> chat_id_str \/ match_code (text_of u) = None) ->
  scan_updates upds o
  = (match rev upds with u :: _ => update_id u + 1 | [] => o end, None).
Proof.
  intros H. rewrite <- (app_nil_r upds) at 1. now rewrite (scan_skips upds _ _ H).
Qed.

(** ** Reading the session cookie *)

Lemma find_session_spec cs :
  match find_session cs with
  | Some v =>
      exists pre c post,
        cs = (pre ++ c :: post)%list
        /\ is_session_cookie c = true /\ c_value c = v
        /\ forall d, In d pre -> is_session_cookie d = false
  | None => forall c, In c cs -> is_session_cookie c = false
  end.
Proof.
  induction cs as [|c cs IH]; cbn [find_session].
  - intros c [].
  - destruct (is_session_cookie c) eqn:S.
    + exists [], c, cs. repeat split; auto. intros d [].
    + destruct (find_session cs) as [v|].
      * destruct IH as (pre & c' & post & -> & S' & V & N).
        exists (c :: pre), c', post. repeat split; auto.
        intros d [<-|I]; auto.
      * intros d [<-|I]; auto.
Qed.

(** X4.  [get_session] never raises and logs nothing.  It returns the
    value of the first cookie named [user_session] whose domain
    contains [github]; it returns [None] when the browser context
    raises, and when no cookie is of that kind. *)
Theorem X4_get_session_returns_the_first_github_session (w : World) :
  exists r w',
    get_session w = (Ret r, w')
    /\ logs w' = logs w
    /\ (a_raises (env (steps w)) = true -> r = None)
    /\ (forall v, r = Some v ->
          exists pre c post,
            a_cookies (env (steps w)) = (pre ++ c :: post)%list
            /\ c_name c = "user_session"
            /\ Str.contains "github"
                 (match c_domain c with Some d => d | None => "" end) = true
            /\ c_value c = v
            /\ forall d, In d pre -> is_session_cookie d = false)
    /\ (r = None -> a_raises (env (steps w)) = false ->
        forall c, In c (a_cookies (env (steps w))) -> is_session_cookie c = false).
Proof.
  unfold get_session, try_bare, bind, browser, ret.
  destruct (a_raises (env (steps w))) eqn:R.
  - eexists _, _. split; [reflexivity|]. split; [reflexivity|].
    split; [reflexivity|]. split; [discriminate | discriminate].
  - pose proof (find_session_spec (a_cookies (env (steps w)))) as F.
    eexists _, _. split; [reflexivity|]. split; [reflexivity|].
    split; [discriminate|]. split.
    + intros v E. rewrite E in F.
      destruct F as (pre & c & post & C & S & V & N).
      exists pre, c, post. unfold is_session_cookie in S.
      apply andb_prop in S as [S1 S2]. apply String.eqb_eq in S1.
      repeat split; auto.
    + intros E _. rewrite E in F. exact F.
Qed.

(** ** Screenshots *)

(** The screenshots kept so far carry distinct numbers, none above the
    counter. *)
Definition shots_numbered (w : World) : Prop :=
  (forall f, In f (shots w) -> (fst f <= shot_n w)%nat)
  /\ NoDup (map fst (shots w)).

Lemma NoDup_snoc {A} (l : list A) a :
  NoDup l -> ~ In a l -> NoDup (l ++ [a]).
Proof.
  induction l as [|x l IH]; intros D N; cbn.
  - constructor; [intros [] | constructor].
  - inversion D as [|? ? Nx Dl]; subst. constructor.
    + intros I. apply in_app_or in I as [I|[<-|[]]]; [now apply Nx|].
      apply N. now left.
    + apply IH; [exact Dl|]. intros I. apply N. now right.
Qed.

Lemma shot_run name w :
  exists w',
    shot name w = (Ret (S (shot_n w), name), w')
    /\ shot_n w' = S (shot_n w)
    /\ shots w' = (if a_raises (env (steps w)) then shots w
                   else shots w ++ [(S (shot_n w), name)])%list
    /\ logs w' = logs w.
Proof.
  unfold shot, next_shot_number, keep_shot, try_bare, bind, browser, ret. cbn.
  destruct (a_raises (env (steps w))); cbn; eexists; repeat split.
Qed.

(** X5.  [shot] always returns the file name made of the next number
    and the given name, and always advances the counter, also when the
    screenshot fails; the file is recorded only when the screenshot was
    taken.  The recorded files keep distinct numbers. *)
Theorem X5_shot_numbers_are_fresh (name : ShotName) (w : World) :
  shots_numbered w ->
  exists w',
    shot name w = (Ret (S (shot_n w), name), w')
    /\ shot_n w' = S (shot_n w)
    /\ shots w' = (if a_raises (env (steps w)) then shots w
                   else shots w ++ [(S (shot_n w), name)])%list
    /\ shots_numbered w'.
Proof.
  intros [B D]. destruct (shot_run name w) as (w' & E & N & Sh & _).
  exists w'. split; [exact E|]. split; [exact N|]. split; [exact Sh|].
  unfold shots_numbered. rewrite Sh, N.
  destruct (a_raises (env (steps w))).
  - split; [|exact D]. intros f I. specialize (B f I). lia.
  - split.
    + intros f I. apply in_app_or in I as [I|[<-|[]]].
      * specialize (B f I). lia.
      * cbn. lia.
    + rewrite map_app. apply NoDup_snoc; [exact D|].
      intros I. apply in_map_iff in I as (f & F & I).
      specialize (B f I). cbn in F. lia.
Qed.


(** ** Updating the repository secret *)

(** X7.  [SecretUpdater.update] never raises.  Without a token or a
    repository it returns [False] at once and makes no request.  It
    returns [True] exactly when it is configured, none of its four
    steps (import, key request, sealing, upload) raises, the key
    request answers 200 and the upload answers 201 or 204.  When the key
    request does not answer 200 nothing is uploaded. *)
Theorem X7_secret_update_verdict (name v : string) (w : World) :
  exists ok w' evs,
    secret_update name v w = (Ret ok, w')
    /\ trace w' = (trace w ++ EUpdate name v :: evs)%list
    /\ (secret_enabled = false -> ok = false /\ evs = [])
    /\ (ok = true <->
        secret_enabled = true
        /\ a_raises (env (steps w)) = false
        /\ a_raises (env (S (steps w))) = false
        /\ a_status (env (S (steps w))) = 200
        /\ a_raises (env (S (S (steps w)))) = false
        /\ a_raises (env (S (S (S (steps w))))) = false
        /\ (a_status (env (S (S (S (steps w))))) = 201
            \/ a_status (env (S (S (S (steps w))))) = 204))
    /\ (a_status (env (S (steps w))) <> 200 -> ~ In (EPutSecret name v) evs).
Proof.
  unfold secret_update. rewrite bind_emit.
  destruct secret_enabled; cbn [negb].
  2:{ exists false, (add_event (EUpdate name v) w), [].
      split; [reflexivity|]. split; [reflexivity|]. split; [now split|].
      split; [|intros _ []]. split; [discriminate | intros [X _]; discriminate]. }
  unfold try_exc, bind, offpage, ret. cbn [steps add_event advance].
  destruct (a_raises (env (steps w))) eqn:R0.
  { eexists _, _, _. split; [reflexivity|]. split; [cbn; now rewrite <- app_assoc|].
    split; [discriminate|]. split.
    - split; [discriminate | intros (_ & X & _); discriminate].
    - cbn. intuition discriminate. }
  cbn [steps add_event advance].
  destruct (a_raises (env (S (steps w)))) eqn:R1.
  { eexists _, _, _. split; [reflexivity|].
    split; [cbn; now rewrite <- !app_assoc|].
    split; [discriminate|]. split.
    - split; [discriminate | intros (_ & _ & X & _); discriminate].
    - cbn. intuition discriminate. }
  cbn [steps add_event advance].
  destruct (a_status (env (S (steps w))) =? 200) eqn:K; cbn [negb].
  2:{ apply Z.eqb_neq in K.
      eexists _, _, _. split; [reflexivity|].
      split; [cbn; now rewrite <- !app_assoc|].
      split; [discriminate|]. split.
      - split; [discriminate | intros (_ & _ & _ & X & _); contradiction].
      - cbn. intuition discriminate. }
  apply Z.eqb_eq in K. cbn [steps add_event advance].
  destruct (a_raises (env (S (S (steps w))))) eqn:R2.
  { eexists _, _, _. split; [reflexivity|].
    split; [cbn; now rewrite <- !app_assoc|].
    split; [discriminate|]. split.
    - split; [discriminate | intros (_ & _ & _ & _ & X & _); discriminate].
    - intros X. contradiction. }
  cbn [steps add_event advance].
  destruct (a_raises (env (S (S (S (steps w)))))) eqn:R3.
  { eexists _, _, _. split; [reflexivity|].
    split; [cbn; now rewrite <- !app_assoc|].
    split; [discriminate|]. split.
    - split; [discriminate | intros (_ & _ & _ & _ & _ & X & _); discriminate].
    - intros X. contradiction. }
  eexists _, _, _. split; [reflexivity|].
  split; [cbn; now rewrite <- !app_assoc|].
  split; [discriminate|]. split.
  - rewrite orb_true_iff, !Z.eqb_eq. split.
    + intros X. repeat (split; [reflexivity || assumption|]). exact X.
    + intros (_ & _ & _ & _ & _ & _ & X). exact X.
  - intros X. contradiction.
Qed.

(** ** Looking for something to click *)

(** a look at the first element of a selector, as [find_and_click]
    does it *)
Definition is_probe (e : Event) : bool :=
  match e with EIsVisible (First _) 3000 => true | _ => false end.

Lemma click_attempt_run sel (d : Desc) w :
  exists hit w1 ls evs,
    try_exc
      (v <- is_visible (First sel) 3000 ;;
       if v then
         click_on (First sel) ;;
         log (LClicked d sel) SUCCESS ;;
         ret true
       else ret false)
      (fun e => log (LClickFailed sel e) INFO ;; ret false) w
    = (Ret hit, w1)
    /\ logs w1 = (logs w ++ ls)%list
    /\ trace w1 = (trace w ++ evs)%list
    /\ count is_probe evs = 1%nat
    /\ if hit
       then ls = [(SUCCESS, LClicked d sel)]
            /\ evs = [EIsVisible (First sel) 3000; EClick (First sel)]
       else forall s', ~ In (SUCCESS, LClicked d s') ls.
Proof.
  unfold is_visible, click_on, try_exc, bind, browser, log, ret.
  cbv beta zeta.
  destruct (a_raises (env (steps w))) eqn:R0; cbn.
  { eexists _, _, _, [_]. split; [reflexivity|]. cbn.
    repeat split. intros s' [X|[]]. discriminate. }
  destruct (a_visible (env (steps w))) eqn:V; cbn.
  2:{ eexists _, _, [], [_]. split; [reflexivity|]. cbn.
      rewrite app_nil_r. repeat split. intros s' []. }
  destruct (a_raises (env (S (steps w)))) eqn:R1; cbn.
  { eexists _, _, _, [_; _]. split; [reflexivity|]. cbn.
    rewrite <- app_assoc. repeat split. intros s' [X|[]]. discriminate. }
  eexists _, _, _, [_; _]. split; [reflexivity|]. cbn.
  rewrite <- app_assoc. repeat split.
Qed.


(** ** What a run can do at all *)

Definition Selector_eq_dec (a b : Selector) : {a = b} + {a <> b}.
Proof. decide equality; apply string_dec. Defined.

Definition Target_eq_dec (a b : Target) : {a = b} + {a <> b}.
Proof. decide equality; first [apply Selector_eq_dec | apply Nat.eq_dec]. Defined.

(** The two inputs of the GitHub login form. *)
Definition login_field : Target := First (AttrEq "input" "name" "login").
Definition password_field : Target := First (AttrEq "input" "name" "password").

(** What may be typed where: the user name into the login input, the
    password into the password input, anything into one of the
    one-time-code inputs, and nothing anywhere else. *)
Definition text_eqb (a b : Text) : bool :=
  if list_eq_dec N.eq_dec a b then true else false.

Lemma text_eqb_refl a : text_eqb a a = true.
Proof. unfold text_eqb. now destruct (list_eq_dec N.eq_dec a a). Qed.

Definition fill_allowed (t : Target) (text : Text) : bool :=
  if Target_eq_dec t login_field
  then text_eqb text (Str.of_string (or_empty (username cfg)))
  else if Target_eq_dec t password_field
       then text_eqb text (Str.of_string (or_empty (password cfg)))
       else match t with
            | First s => if in_dec Selector_eq_dec s otp_selectors then true else false
            | Nth _ _ => false
            end.

(** The addresses [page.goto] is called with. *)
Definition goto_allowed (u : string) : bool :=
  (String.eqb u SIGNIN_URL
   || String.eqb u (CLAW_CLOUD_URL ++ "/")
   || String.eqb u (CLAW_CLOUD_URL ++ "/apps")
   || String.eqb u (CLAW_CLOUD_URL ++ "/account"))%bool.

(** The interactions of the script: Telegram requests only with the
    notifier configured, GitHub API requests only with the secret
    updater configured, navigation only to the four ClawCloud
    addresses, typing only as [fill_allowed] says, no key but Enter, no
    cookie but the configured session. *)
Definition in_script (e : Event) : bool :=
  match e with
  | EPostMessage _ | EPostPhoto _ _ | EGetUpdates _ _ => tg_enabled
  | EImportNacl | EGetKey | ESeal _ | EPutSecret _ _ => secret_enabled
  | EGoto u _ => goto_allowed u
  | EFill t text => fill_allowed t text
  | EPress key => String.eqb key "Enter"
  | EAddCookies s => String.eqb s (gh_session cfg)
  | _ => true
  end.

Lemma did_out_of_fuel p {A} : keeps (did p) (@out_of_fuel A).
Proof. intros w. apply rel_refl. Qed.

Lemma did_close_browser p : p EClose = true -> keeps (did p) close_browser.
Proof. intros H w. eapply did_one; [exact H | reflexivity]. Qed.

Lemma did_launch p : p ELaunch = true -> keeps (did p) launch.
Proof.
  intros H w. unfold launch. destruct (a_raises (env (steps w)));
    (eapply did_one; [exact H | reflexivity]).
Qed.

#[local] Hint Resolve did_out_of_fuel did_close_browser did_launch : flow.

Lemma script_wait_for_load_state s t : keeps (did in_script) (wait_for_load_state s t).
Proof. unfold wait_for_load_state. flow. Qed.

Lemma script_is_visible t n : keeps (did in_script) (is_visible t n).
Proof. unfold is_visible. flow. Qed.

Lemma script_click_on t : keeps (did in_script) (click_on t).
Proof. unfold click_on. flow. Qed.

Lemma script_shot name : keeps (did in_script) (shot name).
Proof. unfold shot. flow. Qed.

#[local] Hint Resolve script_wait_for_load_state script_is_visible
  script_click_on script_shot : flow.

Lemma script_tg_send m : keeps (did in_script) (tg_send m).
Proof.
  unfold tg_send. destruct tg_enabled eqn:T; cbn [negb]; flow.
Qed.

Lemma script_tg_photo f c : keeps (did in_script) (tg_photo f c).
Proof.
  unfold tg_photo. destruct tg_enabled eqn:T; cbn [negb orb]; flow.
Qed.

Lemma script_flush_updates : keeps (did in_script) flush_updates.
Proof.
  unfold flush_updates. destruct tg_enabled eqn:T; cbn [negb]; flow.
Qed.

Lemma script_poll_once offset :
  tg_enabled = true -> keeps (did in_script) (poll_once offset).
Proof.
  intros T. unfold poll_once. flow.
Qed.

Lemma script_wait_code_loop fuel :
  tg_enabled = true ->
  forall deadline offset, keeps (did in_script) (wait_code_loop fuel deadline offset).
Proof.
  intros T. induction fuel as [|k IH]; intros deadline offset;
    cbn [wait_code_loop]; pose proof (script_poll_once) as P; flow.
Qed.

Lemma script_wait_code timeout : keeps (did in_script) (wait_code timeout).
Proof.
  unfold wait_code. destruct tg_enabled eqn:T; cbn [negb]; flow.
  - apply script_flush_updates.
  - now apply script_wait_code_loop.
Qed.

Lemma script_secret_update name v : keeps (did in_script) (secret_update name v).
Proof.
  unfold secret_update. destruct secret_enabled eqn:T; cbn [negb]; flow.
Qed.

#[local] Hint Resolve script_tg_send script_tg_photo script_flush_updates
  script_wait_code script_secret_update : flow.

Lemma script_find_and_click sels d : keeps (did in_script) (find_and_click sels d).
Proof. induction sels as [|sel rest IH]; cbn [find_and_click]; flow. Qed.

Lemma script_get_session : keeps (did in_script) get_session.
Proof. unfold get_session. flow. Qed.

Lemma script_save_cookie value : keeps (did in_script) (save_cookie value).
Proof. unfold save_cookie. flow. Qed.

#[local] Hint Resolve script_find_and_click script_get_session
  script_save_cookie : flow.

Lemma script_wait_device_loop fuel :
  forall start deadline last,
    keeps (did in_script) (wait_device_loop fuel start deadline last).
Proof.
  induction fuel as [|k IH]; intros start deadline last;
    cbn [wait_device_loop]; flow.
Qed.

Lemma script_force_elements btn idx : keeps (did in_script) (force_elements btn idx).
Proof. induction idx as [|i rest IH]; cbn [force_elements]; flow. Qed.

#[local] Hint Resolve script_wait_device_loop script_force_elements : flow.

Lemma script_force_sweep btns : keeps (did in_script) (force_sweep btns).
Proof. induction btns as [|b rest IH]; cbn [force_sweep]; flow. Qed.

#[local] Hint Resolve script_force_sweep : flow.

Lemma script_wait_device : keeps (did in_script) wait_device.
Proof. unfold wait_device. flow. Qed.

Lemma script_mobile_2fa_loop fuel :
  forall start deadline, keeps (did in_script) (mobile_2fa_loop fuel start deadline).
Proof.
  induction fuel as [|k IH]; intros start deadline; cbn [mobile_2fa_loop]; flow.
Qed.

#[local] Hint Resolve script_wait_device script_mobile_2fa_loop : flow.

Lemma script_handle_mobile_2fa : keeps (did in_script) _handle_mobile_2fa.
Proof. unfold _handle_mobile_2fa. flow. Qed.

Lemma script_click_verify btns : keeps (did in_script) (click_verify btns).
Proof. induction btns as [|b rest IH]; cbn [click_verify]; flow. Qed.

#[local] Hint Resolve script_handle_mobile_2fa script_click_verify : flow.

Lemma otp_field_allowed sel code :
  In sel otp_selectors -> fill_allowed (First sel) code = true.
Proof.
  intros I. unfold fill_allowed.
  destruct (Target_eq_dec (First sel) login_field) as [E|_].
  { exfalso. inversion E; subst sel. cbn in I.
    repeat (destruct I as [I|I]; [discriminate I|]). exact I. }
  destruct (Target_eq_dec (First sel) password_field) as [E|_].
  { exfalso. inversion E; subst sel. cbn in I.
    repeat (destruct I as [I|I]; [discriminate I|]). exact I. }
  destruct (in_dec Selector_eq_dec sel otp_selectors); [reflexivity | contradiction].
Qed.

Lemma script_fill_otp sels code :
  incl sels otp_selectors -> keeps (did in_script) (fill_otp sels code).
Proof.
  induction sels as [|sel rest IH]; intros I; cbn [fill_otp].
  - flow.
  - assert (F : keeps (did in_script) (fill (First sel) code)).
    { unfold fill. flow. apply did_browser. cbn [in_script].
      apply otp_field_allowed, I. now left. }
    assert (R : keeps (did in_script) (fill_otp rest code))
      by (apply IH; intros x X; apply I; now right).
    flow.
Qed.

Lemma script_handle_code_2fa : keeps (did in_script) _handle_code_2fa.
Proof.
  unfold _handle_code_2fa.
  pose proof (fun c => script_fill_otp otp_selectors c (incl_refl _)) as F.
  flow.
Qed.

#[local] Hint Resolve script_handle_code_2fa : flow.

Lemma script_detect_and_handle_2fa : keeps (did in_script) detect_and_handle_2fa.
Proof. unfold detect_and_handle_2fa. flow. Qed.

Lemma script_click_submit sels : keeps (did in_script) (click_submit sels).
Proof. induction sels as [|sel rest IH]; cbn [click_submit]; flow. Qed.

Lemma script_click_any idx : keeps (did in_script) (click_any idx).
Proof. induction idx as [|i rest IH]; cbn [click_any]; flow. Qed.

#[local] Hint Resolve script_detect_and_handle_2fa script_click_submit
  script_click_any : flow.

Lemma script_fill_login :
  keeps (did in_script)
    (fill login_field (Str.of_string (or_empty (username cfg)))).
Proof.
  unfold fill. flow. apply did_browser. cbn [in_script]. unfold fill_allowed.
  destruct (Target_eq_dec login_field login_field); [|congruence].
  apply text_eqb_refl.
Qed.

Lemma script_fill_password :
  keeps (did in_script)
    (fill password_field (Str.of_string (or_empty (password cfg)))).
Proof.
  unfold fill. flow. apply did_browser. cbn [in_script]. unfold fill_allowed.
  destruct (Target_eq_dec password_field login_field) as [E|_]; [discriminate E|].
  destruct (Target_eq_dec password_field password_field); [|congruence].
  apply text_eqb_refl.
Qed.

Lemma script_login_github : keeps (did in_script) login_github.
Proof.
  unfold login_github.
  pose proof script_fill_login as F1. pose proof script_fill_password as F2.
  unfold login_field, password_field in F1, F2.
  flow.
Qed.

#[local] Hint Resolve script_login_github : flow.

Lemma script_every_fifth n m :
  keeps (did in_script) m -> keeps (did in_script) (every_fifth n m).
Proof. intros H. unfold every_fifth. flow. Qed.

Lemma script_goto_signin t : keeps (did in_script) (goto SIGNIN_URL t).
Proof. apply did_goto. reflexivity. Qed.

Lemma script_goto_page p t : keeps (did in_script) (goto (page_address p) t).
Proof. apply did_goto. destruct p; reflexivity. Qed.

Lemma script_goto_console t : keeps (did in_script) (goto (CLAW_CLOUD_URL ++ "/") t).
Proof. apply did_goto. reflexivity. Qed.

#[local] Hint Resolve script_every_fifth script_goto_signin script_goto_page
  script_goto_console : flow.

Lemma script_oauth_branch attempt u : keeps (did in_script) (oauth_branch attempt u).
Proof. unfold oauth_branch, every_fifth. flow. Qed.

#[local] Hint Resolve script_oauth_branch : flow.

Lemma script_oauth_loop attempts : keeps (did in_script) (oauth_loop attempts).
Proof.
  induction attempts as [|a rest IH]; cbn [oauth_loop]; unfold every_fifth; flow.
Qed.

Lemma script_complete_oauth_flow : keeps (did in_script) complete_oauth_flow.
Proof. unfold complete_oauth_flow. pose proof script_oauth_loop. flow. Qed.

Lemma script_visit_all pages : keeps (did in_script) (visit_all pages).
Proof. induction pages as [|p rest IH]; cbn [visit_all]; flow. Qed.

#[local] Hint Resolve script_complete_oauth_flow script_visit_all : flow.

Lemma script_keepalive : keeps (did in_script) keepalive.
Proof. unfold keepalive. flow. Qed.

Lemma script_photo_each fs : keeps (did in_script) (photo_each fs).
Proof. induction fs as [|f rest IH]; cbn [photo_each]; flow. Qed.

#[local] Hint Resolve script_keepalive script_photo_each : flow.

Lemma script_notify ok err : keeps (did in_script) (notify ok err).
Proof. unfold notify. flow. Qed.

#[local] Hint Resolve script_notify : flow.

Lemma script_run_update_cookie : keeps (did in_script) run_update_cookie.
Proof. unfold run_update_cookie. flow. Qed.

#[local] Hint Resolve script_run_update_cookie : flow.

Lemma script_run_from_oauth : keeps (did in_script) run_from_oauth.
Proof. unfold run_from_oauth. flow. Qed.

#[local] Hint Resolve script_run_from_oauth : flow.

Lemma script_run_from_click : keeps (did in_script) run_from_click.
Proof. unfold run_from_click. flow. Qed.

#[local] Hint Resolve script_run_from_click : flow.

Lemma script_run_from_landing : keeps (did in_script) run_from_landing.
Proof. unfold run_from_landing. flow. Qed.

#[local] Hint Resolve script_run_from_landing : flow.

Lemma script_run_body : keeps (did in_script) run_body.
Proof.
  unfold run_body.
  assert (C : keeps (did in_script)
                (browser (EAddCookies (gh_session cfg)) FAddCookies)).
  { apply did_browser. cbn [in_script]. apply String.eqb_refl. }
  flow.
Qed.

Lemma script_guarded body :
  keeps (did in_script) body -> keeps (did in_script) (guarded body).
Proof. intros H. unfold guarded. flow. Qed.

(** Everything a run does is in the script's repertoire. *)
Lemma script_run : keeps (did in_script) run.
Proof.
  unfold run. pose proof (script_guarded _ script_run_body). flow.
Qed.

Lemma did_In p w w' e :
  did p w w' -> forall evs, trace w' = (trace w ++ evs)%list -> In e evs -> p e = true.
Proof.
  intros (l & T & P) evs E I. rewrite T in E. apply app_inv_head in E. subst l.
  rewrite forallb_forall in P. now apply P.
Qed.

(** a request to the Telegram API *)
Definition is_telegram_request (e : Event) : bool :=
  match e with
  | EPostMessage _ | EPostPhoto _ _ | EGetUpdates _ _ => true
  | _ => false
  end.

(** a step of [SecretUpdater.update] after its configuration test *)
Definition is_secret_request (e : Event) : bool :=
  match e with
  | EImportNacl | EGetKey | ESeal _ | EPutSecret _ _ => true
  | _ => false
  end.

Lemma run_trace w :
  exists evs, trace (snd (run w)) = (trace w ++ evs)%list
              /\ forall e, In e evs -> in_script e = true.
Proof.
  destruct (script_run w) as (evs & T & P). exists evs. split; [exact T|].
  now apply forallb_forall.
Qed.

(** X9.  Without a bot token or a chat id, a whole run makes no request
    to Telegram: no message, no photo, no poll for updates. *)
Theorem X9_no_telegram_request_without_configuration (w : World) :
  tg_enabled = false ->
  exists evs,
    trace (snd (run w)) = (trace w ++ evs)%list
    /\ forall e, In e evs -> is_telegram_request e = false.
Proof.
  intros T. destruct (run_trace w) as (evs & E & P). exists evs.
  split; [exact E|]. intros e I. specialize (P e I).
  destruct e; try reflexivity; cbn in P; congruence.
Qed.

(** X10.  Without a repository token or a repository name, a whole run
    never imports PyNaCl, asks for the public key, seals a value or
    uploads a secret. *)
Theorem X10_no_secret_request_without_configuration (w : World) :
  secret_enabled = false ->
  exists evs,
    trace (snd (run w)) = (trace w ++ evs)%list
    /\ forall e, In e evs -> is_secret_request e = false.
Proof.
  intros T. destruct (run_trace w) as (evs & E & P). exists evs.
  split; [exact E|]. intros e I. specialize (P e I).
  destruct e; try reflexivity; cbn in P; congruence.
Qed.

(** X11.  The only addresses a run navigates to with [page.goto] are the
    ClawCloud sign-in page, the console, the apps page and the account
    page: GitHub is only ever reached by clicking. *)
Theorem X11_run_navigates_only_to_clawcloud (w : World) :
  exists evs,
    trace (snd (run w)) = (trace w ++ evs)%list
    /\ forall u t, In (EGoto u t) evs ->
                   u = SIGNIN_URL \/ u = CLAW_CLOUD_URL ++ "/"
                   \/ u = CLAW_CLOUD_URL ++ "/apps"
                   \/ u = CLAW_CLOUD_URL ++ "/account".
Proof.
  destruct (run_trace w) as (evs & E & P). exists evs. split; [exact E|].
  intros u t I. specialize (P _ I). cbn [in_script] in P. unfold goto_allowed in P.
  rewrite !orb_true_iff, !String.eqb_eq in P. tauto.
Qed.


(** ** The mobile two-factor wait, as a whole *)

Lemma mobile_2fa_loop_timeout k start_time deadline w :
  deadline <= clock w ->
  mobile_2fa_loop (S k) start_time deadline w
  = (log LMobileTimeout ERROR ;; tg_send MMobileTimeout ;; ret false) w.
Proof.
  intros T. apply Z.ltb_ge in T. cbn [mobile_2fa_loop].
  change (bind time_time ?f w) with (f (clock w) w). cbv beta. now rewrite T.
Qed.

Definition two_factor_path : string := "github.com/sessions/two-factor/".

(** What the wait can answer. *)
Definition mobile_verdict (deadline : Z) (b : bool) (w' : World) : Prop :=
  if b
  then Str.contains two_factor_path (url w') = false
       /\ In (SUCCESS, LMobilePassed) (logs w')
  else (deadline <= clock w' /\ In (ERROR, LMobileTimeout) (logs w'))
       \/ (Str.contains two_factor_path (url w') = true
           /\ Str.contains "github.com/login" (url w') = true
           /\ In (ERROR, LBackToLogin) (logs w')).

Lemma mobile_2fa_loop_run k :
  forall start_time deadline w,
    deadline <= clock w + 1000 * Z.of_nat k ->
    exists b w',
      mobile_2fa_loop (S k) start_time deadline w = (Ret b, w')
      /\ clock w <= clock w'
      /\ mobile_verdict deadline b w'.
Proof.
  assert (Late : forall k start_time deadline w,
            deadline <= clock w ->
            exists b w',
              mobile_2fa_loop (S k) start_time deadline w = (Ret b, w')
              /\ clock w <= clock w'
              /\ mobile_verdict deadline b w').
  { clear k. intros k start_time deadline w T. rewrite (mobile_2fa_loop_timeout _ _ _ _ T).
    rewrite bind_log.
    destruct (tg_send_run MMobileTimeout (add_log (ERROR, LMobileTimeout) w))
      as (w2 & E2 & _ & L2 & _).
    pose proof (keeps_run _ _ _ _ _ (later_tg_send _) E2) as C2. unfold later in C2.
    rewrite (bind_ret _ _ _ _ _ E2). exists false, w2. split; [reflexivity|].
    cbn in C2. split; [exact C2|]. left. split; [lia|].
    rewrite L2. cbn. apply in_or_app. right. now left. }
  induction k as [|k IH]; intros start_time deadline w D.
  - apply Late. lia.
  - destruct (Z.lt_ge_cases (clock w) deadline) as [T|T]; [|now apply Late].
    rewrite (mobile_2fa_loop_eq _ _ _ _ T).
    destruct (sleep_run 1 w) as (w1 & E1 & C1 & _).
    rewrite (bind_ret _ _ _ _ _ E1).
    change (bind page_url ?f w1) with (f (url w1) w1). cbv beta.
    fold two_factor_path.
    destruct (Str.contains two_factor_path (url w1)) eqn:U; cbn [negb].
    2:{ rewrite bind_log.
        destruct (tg_send_run MMobilePassed (add_log (SUCCESS, LMobilePassed) w1))
          as (w2 & E2 & _ & L2 & U2).
        pose proof (keeps_run _ _ _ _ _ (later_tg_send _) E2) as C2.
        unfold later in C2. cbn in C2.
        rewrite (bind_ret _ _ _ _ _ E2). exists true, w2. split; [reflexivity|].
        split; [lia|]. split.
        - rewrite U2. exact U.
        - rewrite L2. cbn. apply in_or_app. right. now left. }
    destruct (Str.contains "github.com/login" (url w1)) eqn:L.
    { rewrite bind_log. exists false, (add_log (ERROR, LBackToLogin) w1).
      split; [reflexivity|]. split; [cbn; lia|]. right.
      split; [exact U|]. split; [exact L|]. cbn. apply in_or_app. right. now left. }
    gstep_pure.
    match goal with
    | |- context [bind ?m ?k w1] =>
        assert (S1 : safe m) by flow; assert (K1 : keeps later m) by flow;
        destruct (safe_run m w1 S1) as ([] & w2 & E2);
        pose proof (keeps_run _ _ _ _ _ K1 E2) as C2;
        rewrite (bind_ret _ _ _ _ _ E2)
    end.
    match goal with
    | |- context [bind ?m ?k w2] =>
        assert (S2 : safe m) by flow; assert (K2 : keeps later m) by flow;
        destruct (safe_run m w2 S2) as ([] & w3 & E3);
        pose proof (keeps_run _ _ _ _ _ K2 E3) as C3;
        rewrite (bind_ret _ _ _ _ _ E3)
    end.
    unfold later in C2, C3.
    destruct (IH start_time deadline w3) as (b & w' & E & C & V); [lia|].
    exists b, w'. split; [exact E|]. split; [lia | exact V].
Qed.

(** The whole of [_handle_mobile_2fa]. *)
Lemma handle_mobile_2fa_run w :
  exists b w',
    _handle_mobile_2fa w = (Ret b, w')
    /\ mobile_verdict (clock w + 1000 * TWO_FACTOR_WAIT) b w'.
Proof.
  unfold _handle_mobile_2fa. rewrite bind_log.
  set (w0 := add_log (WARN, LMobileWait) w).
  destruct (safe_run _ w0 (safe_shot S2FAMobile)) as (f & w1 & E1).
  pose proof (keeps_run _ _ _ _ _ (later_shot _) E1) as C1.
  rewrite (bind_ret _ _ _ _ _ E1).
  destruct (safe_run _ w1 (safe_tg_send MMobileNeeded)) as ([] & w2 & E2).
  pose proof (keeps_run _ _ _ _ _ (later_tg_send _) E2) as C2.
  rewrite (bind_ret _ _ _ _ _ E2).
  destruct (safe_run _ w2 (safe_tg_photo f CMobilePage)) as ([] & w3 & E3).
  pose proof (keeps_run _ _ _ _ _ (later_tg_photo _ _) E3) as C3.
  rewrite (bind_ret _ _ _ _ _ E3).
  change (bind time_time ?f w3) with (f (clock w3) w3). cbv beta zeta.
  unfold later in C1, C2, C3. change (clock w0) with (clock w) in C1.
  destruct (mobile_2fa_loop_run (Z.to_nat TWO_FACTOR_WAIT) (clock w3)
              (clock w3 + 1000 * TWO_FACTOR_WAIT) w3)
    as (b & w' & E & C & V); [unfold TWO_FACTOR_WAIT; lia|].
  exists b, w'. split; [exact E|]. unfold mobile_verdict in *.
  destruct b; [exact V|]. destruct V as [[D T]|V]; [left | right; exact V].
  split; [lia | exact T].
Qed.

Lemma safe_handle_mobile_2fa : safe _handle_mobile_2fa.
Proof.
  intros w. destruct (handle_mobile_2fa_run w) as (b & w' & E & _).
  exists b. now rewrite E.
Qed.

(** X13.  [_handle_mobile_2fa] always answers: it never raises and its
    loop ends.  It answers [True] only with the page off the two-factor
    path, after logging that the check has passed.  It answers [False]
    either when the whole waiting time has passed, logging the timeout,
    or with the back-to-login line, and that only on an address that
    contains both the two-factor path and [github.com/login]. *)
Theorem X13_mobile_2fa_always_answers (w : World) :
  exists b w',
    _handle_mobile_2fa w = (Ret b, w')
    /\ if b
       then Str.contains two_factor_path (url w') = false
            /\ In (SUCCESS, LMobilePassed) (logs w')
       else (clock w + 1000 * TWO_FACTOR_WAIT <= clock w'
             /\ In (ERROR, LMobileTimeout) (logs w'))
            \/ (Str.contains two_factor_path (url w') = true
                /\ Str.contains "github.com/login" (url w') = true
                /\ In (ERROR, LBackToLogin) (logs w')).
Proof.
  destruct (handle_mobile_2fa_run w) as (b & w' & E & V).
  exists b, w'. split; [exact E | exact V].
Qed.

(** ** How a run ends *)

Lemma safe_wait_code timeout : safe (wait_code timeout).
Proof.
  intros w. destruct tg_enabled eqn:T.
  - destruct (wait_code_run timeout w T) as (o & w0 & r & w' & _ & E & _).
    exists r. now rewrite E.
  - unfold wait_code. rewrite bind_emit, T. now exists None.
Qed.

Lemma safe_click_verify btns : safe (click_verify btns).
Proof. induction btns as [|b rest IH]; cbn [click_verify]; flow. Qed.

#[local] Hint Resolve safe_wait_code safe_click_verify safe_handle_mobile_2fa : flow.

Lemma safe_fill_otp selectors code : safe (fill_otp selectors code).
Proof. induction selectors as [|s rest IH]; cbn [fill_otp]; flow. Qed.

#[local] Hint Resolve safe_fill_otp : flow.

Lemma safe_handle_code_2fa : safe _handle_code_2fa.
Proof. unfold _handle_code_2fa. flow. Qed.

#[local] Hint Resolve safe_handle_code_2fa : flow.

Lemma safe_detect_and_handle_2fa : safe detect_and_handle_2fa.
Proof. unfold detect_and_handle_2fa. flow. Qed.

Lemma safe_click_submit selectors : safe (click_submit selectors).
Proof. induction selectors as [|s rest IH]; cbn [click_submit]; flow. Qed.

Lemma safe_click_any indices : safe (click_any indices).
Proof. induction indices as [|i rest IH]; cbn [click_any]; flow. Qed.

#[local] Hint Resolve safe_detect_and_handle_2fa safe_click_submit safe_click_any : flow.

Lemma ordinary_bind_at {A B} (m : M A) (k : A -> M B) w :
  benign (fst (m w)) -> (forall a, ordinary (k a)) -> benign (fst (bind m k w)).
Proof.
  intros Hm Hk. unfold bind. destruct (m w) as [[a|[f|c]|] w1]; cbn in *; auto.
  specialize (Hk a w1). unfold benign. exact Hk.
Qed.

Lemma ordinary_wait_device : ordinary wait_device.
Proof.
  intros w. change (benign (fst (wait_device w))).
  unfold wait_device. rewrite bind_log.
  set (w0 := add_log (WARN, LDeviceWait) w).
  destruct (safe_run _ w0 (safe_shot SDevice)) as (f & w1 & E1).
  rewrite (bind_ret _ _ _ _ _ E1).
  destruct (safe_run _ w1 (safe_tg_send MDeviceNeeded)) as ([] & w2 & E2).
  rewrite (bind_ret _ _ _ _ _ E2).
  destruct (safe_run _ w2 (safe_tg_photo f CDevicePage)) as ([] & w3 & E3).
  rewrite (bind_ret _ _ _ _ _ E3).
  change (bind time_time ?g w3) with (g (clock w3) w3). cbv beta zeta.
  apply ordinary_bind_at.
  - pose proof (wait_device_loop_spec (Z.to_nat DEVICE_VERIFY_WAIT) (clock w3)
                  (clock w3 + 1000 * DEVICE_VERIFY_WAIT) 0 w3) as L.
    destruct (wait_device_loop _ _ _ _ w3) as [[[b|]|[g|c]|] w4]; cbn; auto;
      apply L; unfold DEVICE_VERIFY_WAIT; lia.
  - pose proof (safe_force_sweep force_continue_buttons).
    intros [b|]; flow.
Qed.

#[local] Hint Resolve ordinary_wait_device : flow.

Lemma ordinary_login_github : ordinary login_github.
Proof. unfold login_github. flow. Qed.

#[local] Hint Resolve ordinary_login_github : flow.

(** A report of [notify(ok, ...)] is among the messages handed to the
    notifier between [w] and [w'], when the notifier is configured
    (without it [notify] returns at once). *)
Definition is_report (ok : bool) (e : Event) : bool :=
  match e with
  | ESend (MReport b _ _ _ _) => Bool.eqb b ok
  | _ => false
  end.

Definition reported (ok : bool) (w w' : World) : Prop :=
  exists evs, trace w' = (trace w ++ evs)%list
              /\ (tg_enabled = true -> existsb (is_report ok) evs = true).

Definition grows : World -> World -> Prop := did (fun _ => true).

Lemma grows_of p {A} (m : M A) : keeps (did p) m -> keeps grows m.
Proof.
  intros H w. destruct (H w) as (evs & E & _). exists evs. split; [exact E|].
  now apply forallb_forall.
Qed.

Lemma reported_after ok w w1 w' : grows w w1 -> reported ok w1 w' -> reported ok w w'.
Proof.
  intros (l1 & E1 & _) (l2 & E2 & R). exists (l1 ++ l2)%list. split.
  - now rewrite E2, E1, app_assoc.
  - intros T. rewrite existsb_app, (R T). apply orb_true_r.
Qed.

Lemma reported_before ok w w1 w' : reported ok w w1 -> grows w1 w' -> reported ok w w'.
Proof.
  intros (l1 & E1 & R) (l2 & E2 & _). exists (l1 ++ l2)%list. split.
  - now rewrite E2, E1, app_assoc.
  - intros T. rewrite existsb_app, (R T). reflexivity.
Qed.

Lemma notify_run ok err w :
  exists w', notify ok err w = (Ret tt, w') /\ reported ok w w'.
Proof.
  destruct (safe_run _ w (safe_notify ok err)) as ([] & w' & E).
  exists w'. split; [exact E|]. revert E. unfold notify.
  destruct tg_enabled eqn:T; cbn [negb].
  - do 2 gstep_pure.
    set (m := MReport ok (username cfg) (clock w) err (lastn 10 (logs w))).
    destruct (tg_send_run m w) as (w1 & E1 & T1 & _).
    rewrite (bind_ret _ _ _ _ _ E1). intros E.
    assert (G : grows w1 w').
    { eapply keeps_run; [|exact E]. apply (grows_of in_script). flow. }
    apply reported_before with w1; [|exact G].
    eexists. split; [exact T1|]. intros _. cbn. now rewrite eqb_reflx.
  - intros E. inversion E; subst. exists []. split; [now rewrite app_nil_r|].
    intros X. rewrite T in X. discriminate X.
Qed.

(** How a part of [run] ends: it never runs out of fuel, and it calls
    [sys.exit] only with status 1 after a failure report. *)
Definition exits {A} (m : M A) : Prop :=
  forall w, match m w with
            | (Ret _, _) | (Raise (PyError _), _) => True
            | (Raise (SystemExit c), w') => c = 1 /\ reported false w w'
            | (OutOfFuel, _) => False
            end.

(** A part that runs to the end of the [try] block: it also returns
    only after a success report. *)
Definition concluded (m : M unit) : Prop :=
  forall w, match m w with
            | (Ret _, w') => reported true w w'
            | (Raise (SystemExit c), w') => c = 1 /\ reported false w w'
            | (Raise (PyError _), _) => True
            | (OutOfFuel, _) => False
            end.

Lemma ordinary_exits {A} (m : M A) : ordinary m -> exits m.
Proof.
  intros H w. specialize (H w).
  destruct (m w) as [[a|[f|c]|] w1]; cbn in *; auto; contradiction.
Qed.

Lemma concluded_bind {A} (m : M A) (k : A -> M unit) :
  keeps grows m -> exits m -> (forall a, concluded (k a)) -> concluded (bind m k).
Proof.
  intros G Hm Hk w. unfold bind. specialize (Hm w). specialize (G w).
  destruct (m w) as [[a|[f|c]|] w1]; cbn [snd] in *; auto.
  specialize (Hk a w1). destruct (k a w1) as [[b|[f|c]|] w2]; auto.
  - now apply reported_after with w1.
  - destruct Hk as [C R]. split; [exact C | now apply reported_after with w1].
Qed.

Lemma exits_bind {A B} (m : M A) (k : A -> M B) :
  keeps grows m -> exits m -> (forall a, exits (k a)) -> exits (bind m k).
Proof.
  intros G Hm Hk w. unfold bind. specialize (Hm w). specialize (G w).
  destruct (m w) as [[a|[f|c]|] w1]; cbn [snd] in *; auto.
  specialize (Hk a w1). destruct (k a w1) as [[b|[f|c]|] w2]; auto.
  destruct Hk as [C R]. split; [exact C | now apply reported_after with w1].
Qed.

Lemma concluded_exits (m : M unit) : concluded m -> exits m.
Proof.
  intros H w. specialize (H w). destruct (m w) as [[a|[f|c]|] w1]; auto.
Qed.

Lemma failed {A} err w :
  exists w', (notify false err ;; @sys_exit A 1) w = (Raise (SystemExit 1), w')
             /\ reported false w w'.
Proof.
  destruct (notify_run false err w) as (w' & E & R). exists w'.
  rewrite (bind_ret _ _ _ _ _ E). split; [reflexivity | exact R].
Qed.

Lemma concluded_failure err : concluded (notify false err ;; sys_exit 1).
Proof.
  intros w. destruct (failed (A:=unit) err w) as (w' & E & R). rewrite E. now split.
Qed.

Lemma exits_failure {A} err : exits (notify false err ;; @sys_exit A 1).
Proof.
  intros w. destruct (failed (A:=A) err w) as (w' & E & R). rewrite E. now split.
Qed.

Lemma concluded_success : concluded (notify true ErrNone).
Proof. intros w. destruct (notify_run true ErrNone w) as (w' & E & R). now rewrite E. Qed.

(** Splits the first action off a part of [run]. *)
Ltac part :=
  repeat first
    [ apply concluded_failure
    | apply exits_failure
    | apply concluded_success
    | apply concluded_bind;
        [ apply (grows_of in_script); solve [flow]
        | first [ apply ordinary_exits; solve [flow] | idtac ]
        | intro ]
    | apply exits_bind;
        [ apply (grows_of in_script); solve [flow]
        | first [ apply ordinary_exits; solve [flow] | idtac ]
        | intro ]
    | match goal with
      | |- concluded (if ?c then _ else _) => destruct c
      | |- exits (if ?c then _ else _) => destruct c
      end
    | apply ordinary_exits; solve [flow] ].

Lemma concluded_run_update_cookie : concluded run_update_cookie.
Proof. unfold run_update_cookie. part. Qed.

Lemma concluded_run_from_oauth : concluded run_from_oauth.
Proof.
  pose proof concluded_run_update_cookie. pose proof safe_complete_oauth_flow.
  unfold run_from_oauth. part; try assumption.
Qed.

Lemma concluded_run_from_click : concluded run_from_click.
Proof.
  pose proof concluded_run_from_oauth.
  unfold run_from_click. part; try assumption.
Qed.

Lemma concluded_run_from_landing : concluded run_from_landing.
Proof.
  pose proof concluded_run_from_click.
  unfold run_from_landing. part; try assumption.
Qed.

Lemma concluded_run_body : concluded run_body.
Proof.
  pose proof concluded_run_from_landing.
  assert (C : keeps (did in_script)
                (browser (EAddCookies (gh_session cfg)) FAddCookies)).
  { apply did_browser. cbn [in_script]. apply String.eqb_refl. }
  unfold run_body. part; try assumption.
Qed.

(** The browser has been closed, and that was the last thing done. *)
Definition closed (w' : World) : Prop :=
  exists evs, trace w' = (evs ++ [EClose])%list.

Lemma guarded_run body w :
  concluded body -> keeps grows body ->
  exists r w',
    guarded body w = (r, w') /\ closed w'
    /\ match r with
       | Ret _ => reported true w w'
       | Raise (SystemExit c) => c = 1 /\ reported false w w'
       | _ => False
       end.
Proof.
  intros C G.
  assert (Close : forall w1, grows w1 (snd (close_browser w1)))
    by (intros w1; exists [EClose]; split; reflexivity).
  assert (Closed : forall w1, closed (snd (close_browser w1)))
    by (intros w1; exists (trace w1); reflexivity).
  unfold guarded, finally, try_exc.
  specialize (C w). specialize (G w).
  destruct (body w) as [[a|[f|c]|] w1]; cbn [snd] in G.
  - exists (Ret a), (snd (close_browser w1)). split; [reflexivity|].
    split; [apply Closed|]. apply reported_before with w1; [exact C | apply Close].
  - rewrite bind_log.
    destruct (safe_run _ (add_log (ERROR, LException (PyError f)) w1)
                (safe_shot SException)) as (s & w2 & E2).
    rewrite (bind_ret _ _ _ _ _ E2).
    destruct (failed (A:=unit) (ErrExn (PyError f)) w2) as (w3 & E3 & R3).
    rewrite E3. exists (Raise (SystemExit 1)), (snd (close_browser w3)).
    split; [reflexivity|]. split; [apply Closed|]. split; [reflexivity|].
    apply reported_before with w3; [|apply Close].
    apply reported_after with w2; [|exact R3].
    assert (G2 : grows (add_log (ERROR, LException (PyError f)) w1) w2).
    { eapply (keeps_run grows); [|exact E2]. apply (grows_of in_script). flow. }
    unfold grows in *. eapply rel_trans; [exact G|].
    eapply rel_trans; [|exact G2]. apply did_nothing. reflexivity.
  - destruct C as [C R]. exists (Raise (SystemExit c)), (snd (close_browser w1)).
    split; [reflexivity|]. split; [apply Closed|]. split; [exact C|].
    apply reported_before with w1; [exact R | apply Close].
  - contradiction.
Qed.

(** X14.  [run] always ends, in one of three ways.  It returns (exit
    status 0) only with the browser closed and, when the notifier is
    configured, after handing it the success report.  It calls
    [sys.exit] only with status 1 and, when the notifier is configured,
    only after handing it a failure report.  The only exception that
    escapes it is the one of starting the browser, with nothing else
    done. *)
Theorem X14_run_ends_with_a_report (w : World) :
  exists r w',
    run w = (r, w')
    /\ match r with
       | Ret _ => reported true w w' /\ closed w'
       | Raise (SystemExit c) => c = 1 /\ reported false w w'
       | Raise (PyError f) =>
           f = FLaunch /\ a_raises (env (steps w)) = true
           /\ trace w' = (trace w ++ [ELaunch])%list
       | OutOfFuel => False
       end.
Proof.
  unfold run. rewrite !bind_log.
  set (w3 := add_log _ (add_log _ (add_log _ w))).
  assert (G3 : grows w w3) by (apply did_nothing; reflexivity).
  destruct (negb (Str.truthy (username cfg)) || negb (Str.truthy (password cfg)))%bool.
  - rewrite bind_log.
    destruct (failed (A:=unit) ErrNoCreds (add_log (ERROR, LMissingCreds) w3))
      as (w' & E & R).
    exists (Raise (SystemExit 1)), w'. split; [exact E|]. split; [reflexivity|].
    apply reported_after with (add_log (ERROR, LMissingCreds) w3); [|exact R].
    apply did_nothing. reflexivity.
  - destruct (a_raises (env (steps w))) eqn:A.
    + assert (L : launch w3
                  = (Raise (PyError FLaunch),
                     advance ELaunch (Z.of_nat (a_lat (env (steps w)))) (url w) w3)).
      { unfold launch. change (steps w3) with (steps w). now rewrite A. }
      rewrite (bind_raise _ _ _ _ _ L). do 2 eexists. split; [reflexivity|].
      split; [reflexivity|]. split; reflexivity.
    + assert (L : launch w3
                  = (Ret tt,
                     advance ELaunch (Z.of_nat (a_lat (env (steps w)))) "about:blank" w3)).
      { unfold launch. change (steps w3) with (steps w). now rewrite A. }
      rewrite (bind_ret _ _ _ _ _ L).
      set (wl := advance ELaunch _ _ w3).
      assert (Gl : grows w wl) by (exists [ELaunch]; split; reflexivity).
      destruct (guarded_run run_body wl concluded_run_body
                  (grows_of in_script _ script_run_body))
        as (r & w' & E & Cl & V).
      exists r, w'. split; [exact E|].
      destruct r as [[]|[f|c]|]; try contradiction.
      * split; [now apply reported_after with wl | exact Cl].
      * destruct V as [C R]. split; [exact C | now apply reported_after with wl].
Qed.

(** ** The code step without a notifier *)

(** X16.  Without a bot token or a chat id the code-based two-factor
    step cannot succeed: [wait_code] returns nothing at once, so the
    step takes its screenshot, logs the timeout and answers [False]
    without waiting and without touching the page further. *)
Theorem X16_code_2fa_without_notifier_fails (w : World) :
  tg_enabled = false ->
  exists w',
    _handle_code_2fa w = (Ret false, w')
    /\ trace w'
       = (trace w ++
          [EScreenshot (S (shot_n w), S2FACode); ESend MCodeNeeded;
           EPhoto (S (shot_n w), S2FACode) CCodePage;
           EWaitCode TWO_FACTOR_WAIT; ESend MCodeTimeout])%list
    /\ clock w' = clock w + Z.of_nat (a_lat (env (steps w)))
    /\ In (ERROR, LCodeTimeout) (logs w').
Proof.
  intros T.
  unfold _handle_code_2fa, wait_code, tg_send, tg_photo, shot, next_shot_number,
    keep_shot, try_bare, emit, log, gets, browser, bind, ret.
  cbn. rewrite T. cbn.
  destruct (a_raises (env (steps w))); cbn;
    (eexists; split; [reflexivity|]); cbn; rewrite <- !app_assoc; cbn;
    (split; [reflexivity|]); (split; [reflexivity|]); in_list.
Qed.

End Program.

(** * Concrete runs *)

(** An outside where nothing happens: no call raises or takes time, the
    page stays where it is, nothing is visible, there are no cookies and
    no Telegram updates. *)
Definition quiet : Answer :=
  {| a_raises := false; a_lat := 0; a_nav := None; a_visible := false;
     a_count := 0; a_text := ""; a_cookies := []; a_status := 200;
     a_updates := fun _ => {| tg_ok := true; tg_result := [] |} |}.

Definition quiet_env : Env := fun _ => quiet.

(** The same, with the page found at [u] from interaction [k] on. *)
Definition moves_at (k : nat) (u : string) : Env :=
  fun n => if Nat.leb k n
           then {| a_raises := false; a_lat := 0; a_nav := Some u;
                   a_visible := false; a_count := 0; a_text := "";
                   a_cookies := []; a_status := 200;
                   a_updates := fun _ => {| tg_ok := true; tg_result := [] |} |}
           else quiet.

Definition operator_cfg : Config :=
  {| username := Some "octocat"; password := Some "hunter2"; gh_session := "";
     tg_token := Some "110201543:AAHdqTcvCH1vGWJxfSeofSAs0K5PALDsaw";
     tg_chat_id := Some "42";
     repo_token := Some "ghp_token"; repo := Some "octocat/clawcloud" |}.

(** The state of a fresh process whose page is at [u]. *)
Definition at_page (u : string) : World :=
  {| steps := 0; clock := 0; url := u; logs := []; shots := []; shot_n := 0;
     trace := [] |}.

(** A Telegram server for the chat of [operator_cfg]: at interaction [n]
    it holds the updates [inbox n], lists all of them to a request
    without offset and those at or above the offset otherwise; the
    request made at interaction [n] fails when [raises n]. *)
Definition from_operator (id : Z) (text : string) : Update :=
  {| update_id := id;
     upd_message := Some {| msg_chat := Some 42;
                            msg_text := Some (Str.of_string text) |} |}.

Definition serving (inbox : nat -> list Update) (raises : nat -> bool) : Env :=
  fun n =>
    {| a_raises := raises n; a_lat := 0; a_nav := None; a_visible := false;
       a_count := 0; a_text := ""; a_cookies := []; a_status := 200;
       a_updates := fun o =>
         {| tg_ok := true;
            tg_result := match o with
                         | None => inbox n
                         | Some off =>
                             filter (fun u => off <=? update_id u) (inbox n)
                         end |} |}.

Definition stale : Update := from_operator 7 "/code 123456".
Definition fresh : Update := from_operator 8 "/code 654321".

(** The old message is pending; the first request (the flush) times
    out; no other message ever arrives. *)
Definition stale_env : Env := serving (fun _ => [stale]) (fun n => Nat.eqb n 0).

(** The old message is pending, the flush succeeds, and the operator
    then sends a new code. *)
Definition fresh_env : Env :=
  serving (fun n => if Nat.eqb n 0 then [stale] else [stale; fresh])
          (fun _ => false).

Lemma serving_honours_offset inbox raises :
  honours_offset (serving inbox raises).
Proof.
  intros n off upd H. cbn in H. apply filter_In in H as [_ H].
  now apply Z.leb_le.
Qed.

Definition idle : World := at_page "about:blank".

(** ** C1: the page is back on the login page *)

Definition login_page : string := "https://github.com/login".
Definition on_mobile_2fa : World :=
  at_page "https://github.com/sessions/two-factor/mobile".

(** The whole step, when the page is found on the login page at the
    first look (interaction 3, after the screenshot and the two
    messages): it returns [True] and logs that the check has passed. *)
Example mobile_2fa_back_on_login_page :
  _handle_mobile_2fa operator_cfg (moves_at 3 login_page) on_mobile_2fa
  = (Ret true,
     {| steps := 5; clock := 1000; url := login_page;
        logs := [(WARN, LMobileWait); (SUCCESS, LMobilePassed)];
        shots := [(1%nat, S2FAMobile)]; shot_n := 1;
        trace := [EScreenshot (1%nat, S2FAMobile); ESend MMobileNeeded;
                  EPostMessage MMobileNeeded;
                  EPhoto (1%nat, S2FAMobile) CMobilePage;
                  EPostPhoto (1%nat, S2FAMobile) CMobilePage; ESleep 1;
                  ESend MMobilePassed; EPostMessage MMobilePassed] |}).
Proof. vm_compute. reflexivity. Qed.

Lemma C1_return_to_login_page_witness :
  clock on_mobile_2fa < 120000
  /\ a_nav (moves_at 0 login_page (steps on_mobile_2fa)) = Some login_page
  /\ Str.contains "github.com/login" login_page = true
  /\ Str.contains "github.com/sessions/two-factor/" login_page = false
  /\ exists w',
       mobile_2fa_loop operator_cfg (moves_at 0 login_page) 121 0 120000
         on_mobile_2fa = (Ret true, w')
       /\ url w' = login_page.
Proof.
  assert (H1 : clock on_mobile_2fa < 120000) by reflexivity.
  assert (H2 : a_nav (moves_at 0 login_page (steps on_mobile_2fa)) = Some login_page)
    by reflexivity.
  assert (H3 : Str.contains "github.com/login" login_page = true) by reflexivity.
  assert (H4 : Str.contains "github.com/sessions/two-factor/" login_page = false)
    by reflexivity.
  repeat (split; [assumption|]).
  destruct (C1_return_to_login_page_is_reported_as_success
              operator_cfg (moves_at 0 login_page) 120 0 120000 login_page
              on_mobile_2fa H1 H2 H3 H4) as (w' & E & U & _).
  exists w'. split; [exact E | exact U].
Defined.

(** ** C2: a stale code, and a fresh one *)

(** The flush request times out while the old message is pending: the
    wait returns the old code, taken from the pending update, and there
    is no other update it could have come from. *)
Example stale_code_is_replayed :
  honours_offset stale_env
  /\ In stale (pending stale_env idle)
  /\ fst (wait_code operator_cfg stale_env 120 idle)
     = Ret (Some (Str.of_string "123456"))
  /\ ~ never_replays operator_cfg stale_env 120 idle.
Proof.
  split; [apply serving_honours_offset|].
  split; [now left|].
  split; [vm_compute; reflexivity|].
  intros NR.
  assert (E : wait_code operator_cfg stale_env 120 idle
              = (Ret (Some (Str.of_string "123456")),
                 snd (wait_code operator_cfg stale_env 120 idle)))
    by (vm_compute; reflexivity).
  destruct (NR _ _ E) as (n & off & upd & _ & L & _ & NI).
  apply NI. destruct L as (_ & _ & I). cbn in I.
  destruct (off <=? 7); [exact I | destruct I].
Qed.

Lemma C2_failed_flush_witness :
  tg_enabled operator_cfg = true
  /\ 0 < 120
  /\ a_raises (stale_env (steps idle)) = true
  /\ In stale (pending stale_env idle)
  /\ accepted operator_cfg (Str.of_string "123456") stale
  /\ exists w',
       wait_code operator_cfg stale_env 120 idle
       = (Ret (Some (Str.of_string "123456")), w')
       /\ trace w'
          = [EWaitCode 120; EGetUpdates 0 None; EGetUpdates 20 (Some 0)].
Proof.
  assert (H1 : tg_enabled operator_cfg = true) by reflexivity.
  assert (H2 : 0 < 120) by reflexivity.
  assert (H3 : a_raises (stale_env (steps idle)) = true) by reflexivity.
  assert (H4 : In stale (pending stale_env idle)) by (now left).
  assert (H5 : accepted operator_cfg (Str.of_string "123456") stale)
    by (split; reflexivity).
  repeat (split; [assumption|]).
  destruct (C2_failed_flush_replays_pending_code operator_cfg stale_env 120 idle
              [] [] stale (Str.of_string "123456") H1 H2 (or_introl H3) H4
              eq_refl eq_refl eq_refl (fun u (I : In u []) => match I with end) H5)
    as (w' & _ & E & T).
  exists w'. split; [exact E | exact T].
Defined.

Lemma X15_no_replay_witness :
  honours_offset fresh_env
  /\ tg_enabled operator_cfg = true
  /\ fst (wait_code operator_cfg fresh_env 120 idle)
     = Ret (Some (Str.of_string "654321"))
  /\ never_replays operator_cfg fresh_env 120 idle.
Proof.
  assert (Hh : honours_offset fresh_env) by apply serving_honours_offset.
  assert (Ht : tg_enabled operator_cfg = true) by reflexivity.
  split; [exact Hh|]. split; [exact Ht|].
  split; [vm_compute; reflexivity|].
  destruct (X15_no_replay_when_flush_succeeds operator_cfg fresh_env 120 idle Hh Ht)
    as (o & w0 & r & w' & _ & _ & _ & NR & _).
  apply NR.
  - split; reflexivity.
  - intros u rest V v I. cbn in V. inversion V; subst u rest.
    destruct I as [<-|[]]. reflexivity.
Defined.

(** ** C4: the device page is left while the step waits *)

Definition on_device_check : World :=
  at_page "https://github.com/sessions/verified-device".


(** ** C6: a cookie is saved *)

Lemma C6_raw_token_witness :
  "user_session_value" <> ""
  /\ exists (ok : bool) w' evs,
       save_cookie operator_cfg quiet_env (Some "user_session_value") idle
       = (Ret tt, w')
       /\ trace w' = (trace idle ++ evs)%list
       /\ count is_update_call evs = 1%nat
       /\ count (hands_raw "user_session_value") evs = (if ok then 0 else 1)%nat.
Proof.
  assert (H : "user_session_value" <> "") by discriminate.
  split; [exact H|].
  destruct (C6_raw_token_sent_once_iff_update_fails
              operator_cfg quiet_env "user_session_value" idle H)
    as (ok & w1 & w' & evs & _ & E & T & U & R & _).
  exists ok, w', evs. split; [exact E|]. split; [exact T|].
  split; [exact U | exact R].
Defined.

(** ** C7: the landing page is the console *)

Definition on_console : World := at_page (CLAW_CLOUD_URL ++ "/").

Lemma C7_valid_session_witness :
  Str.contains "signin" (Str.lower (url on_console)) = false
  /\ exit_status (fst (guarded operator_cfg quiet_env
                         (run_from_landing operator_cfg quiet_env) on_console))
     = Some 0.
Proof.
  assert (H : Str.contains "signin" (Str.lower (url on_console)) = false)
    by (vm_compute; reflexivity).
  split; [exact H|].
  destruct (C7_valid_session_skips_login operator_cfg quiet_env on_console H)
    as (w' & evs & _ & _ & _ & _ & _ & _ & _ & X).
  exact X.
Defined.

(** ** C9: no cookie in the browser context *)

Lemma C9_missing_cookie_witness :
  fst (get_session quiet_env (add_log (STEP, LStep6) on_console))
  = Ret None
  /\ exists w',
       run_update_cookie operator_cfg quiet_env on_console = (Ret tt, w')
       /\ In (WARN, LNoNewCookie) (logs w').
Proof.
  assert (H : fst (get_session quiet_env
                     (add_log (STEP, LStep6) on_console)) = Ret None)
    by (vm_compute; reflexivity).
  split; [exact H|].
  destruct (C9_missing_cookie_is_only_a_warning operator_cfg quiet_env on_console H)
    as (w' & evs & E & L & _).
  exists w'. split; [exact E | exact L].
Defined.

(** ** A reply with a stranger's message before the operator's *)

Definition outsider : Update :=
  {| update_id := 6;
     upd_message := Some {| msg_chat := Some 99;
                            msg_text := Some (Str.of_string "/code 111111") |} |}.

Definition chatter : Update := from_operator 7 "hello".

Lemma outsider_skipped u (l : list Update) :
  In u l -> l = [outsider] \/ l = [outsider; chatter] ->
  chat_str u <> chat_id_str operator_cfg \/ match_code (text_of u) = None.
Proof.
  intros I [-> | ->].
  - destruct I as [<-|[]]. left. intros X. vm_compute in X. discriminate X.
  - destruct I as [<-|[<-|[]]].
    + left. intros X. vm_compute in X. discriminate X.
    + right. reflexivity.
Qed.

Lemma X2_scan_witness :
  accepted operator_cfg (Str.of_string "123456") stale
  /\ scan_updates operator_cfg ([outsider] ++ stale :: [fresh]) 0
     = (8, Some (Str.of_string "123456")).
Proof.
  assert (A : accepted operator_cfg (Str.of_string "123456") stale)
    by (split; reflexivity).
  split; [exact A|].
  exact (X2_scan_returns_the_first_match operator_cfg [outsider] [fresh] stale
           (Str.of_string "123456") 0
           (fun u I => outsider_skipped u [outsider] I (or_introl eq_refl)) A).
Defined.

Lemma X3_scan_witness :
  scan_updates operator_cfg [outsider; chatter] 0 = (8, None).
Proof.
  exact (X3_scan_without_match_consumes_the_reply operator_cfg [outsider; chatter] 0
           (fun u I => outsider_skipped u [outsider; chatter] I (or_intror eq_refl))).
Defined.

(** ** Screenshots *)

(** every call raises *)
Definition broken_env : Env := serving (fun _ => []) (fun _ => true).

Lemma idle_shots_numbered : shots_numbered idle.
Proof. split; [intros f [] | constructor]. Qed.

Lemma X5_shot_witness :
  shots_numbered idle
  /\ exists w',
       shot quiet_env SDone idle = (Ret (1%nat, SDone), w')
       /\ shots w' = [(1%nat, SDone)]
       /\ shots_numbered w'.
Proof.
  split; [exact idle_shots_numbered|].
  destruct (X5_shot_numbers_are_fresh quiet_env SDone idle idle_shots_numbered)
    as (w' & E & _ & Sh & N).
  exists w'. split; [exact E|]. split; [exact Sh | exact N].
Defined.


(** ** A run without notifier and without repository access *)

Definition silent_cfg : Config :=
  {| username := Some "octocat"; password := Some "hunter2"; gh_session := "";
     tg_token := None; tg_chat_id := None;
     repo_token := None; repo := None |}.

Lemma X9_silent_run_witness :
  tg_enabled silent_cfg = false
  /\ exists evs,
       trace (snd (run silent_cfg quiet_env idle)) = (trace idle ++ evs)%list
       /\ forall e, In e evs -> is_telegram_request e = false.
Proof.
  split; [reflexivity|].
  exact (X9_no_telegram_request_without_configuration silent_cfg quiet_env idle
           eq_refl).
Defined.

Lemma X10_silent_run_witness :
  secret_enabled silent_cfg = false
  /\ exists evs,
       trace (snd (run silent_cfg quiet_env idle)) = (trace idle ++ evs)%list
       /\ forall e, In e evs -> is_secret_request e = false.
Proof.
  split; [reflexivity|].
  exact (X10_no_secret_request_without_configuration silent_cfg quiet_env idle
           eq_refl).
Defined.

Lemma X16_code_2fa_witness :
  tg_enabled silent_cfg = false
  /\ exists w',
       _handle_code_2fa silent_cfg quiet_env idle = (Ret false, w')
       /\ clock w' = clock idle
       /\ In (ERROR, LCodeTimeout) (logs w').
Proof.
  split; [reflexivity|].
  destruct (X16_code_2fa_without_notifier_fails silent_cfg quiet_env idle eq_refl)
    as (w' & E & _ & C & L).
  exists w'. split; [exact E|]. split; [exact C | exact L].
Defined.
